(** * The question handler of static/js/app.js

    A shallow embedding of [askQuestion], the click handler of the chat
    page, and of the part of the browser it talks to: three DOM elements,
    [fetch], the promise chain hanging off it, and [console.error].

    The browser is modelled as a [World]: the document (elements by id),
    the trace of every effect the handler performed, in order, and the
    promises still in flight together with the variables their callbacks
    captured.  The handler itself is written in a small state-and-exception
    monad [JS], statement for statement as in the source. *)

From Stdlib Require Import NArith Ascii String.
From stdpp Require Import gmap list.

Set Warnings "-register-all".

Open Scope N_scope.
Open Scope list_scope.

(** ** JavaScript strings

    A string is a sequence of UTF-16 code units. *)

Abbreviation jsstring := (list N).

Definition lit (s : string) : jsstring :=
  List.map N_of_ascii (list_ascii_of_string s).

(** WhiteSpace and LineTerminator code points of ECMAScript, the ones
    [String.prototype.trim] strips.  All of them are single code units. *)
Definition is_white_space (c : N) : bool :=
  (c =? 0x09) || (c =? 0x0A) || (c =? 0x0B) || (c =? 0x0C) || (c =? 0x0D)
  || (c =? 0x20) || (c =? 0xA0) || (c =? 0x1680)
  || ((0x2000 <=? c) && (c <=? 0x200A))
  || (c =? 0x2028) || (c =? 0x2029) || (c =? 0x202F) || (c =? 0x205F)
  || (c =? 0x3000) || (c =? 0xFEFF).

Fixpoint trimStart (s : jsstring) : jsstring :=
  match s with
  | c :: s' => if is_white_space c then trimStart s' else s
  | [] => []
  end.

Definition trimEnd (s : jsstring) : jsstring := rev (trimStart (rev s)).

Definition trim (s : jsstring) : jsstring := trimEnd (trimStart s).

(** ** JSON values

    The values [JSON.parse] can return and the ones [JSON.stringify] is
    applied to here.  A number is carried by its canonical rendering
    (Number::toString), the only view this program ever takes of one.  An
    object lists its own properties in enumeration order; keys are unique. *)

Inductive json : Type :=
  | JNull
  | JBool (b : bool)
  | JNumber (repr : jsstring)
  | JString (s : jsstring)
  | JArray (items : list json)
  | JObject (props : list (jsstring * json)).

Inductive jserror : Type :=
  | TypeError (msg : jsstring)
  | SyntaxError (msg : jsstring).

Fixpoint assoc {A} (k : jsstring) (ps : list (jsstring * A)) : option A :=
  match ps with
  | [] => None
  | (k', v) :: ps' => if decide (k = k') then Some v else assoc k ps'
  end.

(** *** JSON.stringify *)

Definition hex_digit (d : N) : N :=
  if d <? 10 then 48 + d else 87 + d.

(** The escape [\uXXXX] of a code unit, lower-case digits. *)
Definition unicode_escape (c : N) : jsstring :=
  [92; 117; hex_digit (c / 4096 mod 16); hex_digit (c / 256 mod 16);
   hex_digit (c / 16 mod 16); hex_digit (c mod 16)].

Definition is_leading_surrogate (c : N) : bool := (0xD800 <=? c) && (c <=? 0xDBFF).
Definition is_trailing_surrogate (c : N) : bool := (0xDC00 <=? c) && (c <=? 0xDFFF).

(** One code unit that is not half of a surrogate pair. *)
Definition quote_unit (c : N) : jsstring :=
  if c =? 0x08 then lit "\b"
  else if c =? 0x09 then lit "\t"
  else if c =? 0x0A then lit "\n"
  else if c =? 0x0C then lit "\f"
  else if c =? 0x0D then lit "\r"
  else if c =? 0x22 then [92; 34]
  else if c =? 0x5C then lit "\\"
  else if (c <? 0x20) || is_leading_surrogate c || is_trailing_surrogate c
       then unicode_escape c
  else [c].

Fixpoint quote_units (s : jsstring) : jsstring :=
  match s with
  | [] => []
  | c :: s' =>
      match s' with
      | d :: s'' =>
          if is_leading_surrogate c && is_trailing_surrogate d
          then c :: d :: quote_units s''
          else quote_unit c ++ quote_units s'
      | [] => quote_unit c
      end
  end.

(** QuoteJSONString. *)
Definition QuoteJSONString (s : jsstring) : jsstring :=
  [34] ++ quote_units s ++ [34].

Fixpoint join (sep : jsstring) (parts : list jsstring) : jsstring :=
  match parts with
  | [] => []
  | [p] => p
  | p :: ps => p ++ sep ++ join sep ps
  end.

(** [JSON.stringify v], no replacer and no indentation. *)
Fixpoint JSON_stringify (v : json) : jsstring :=
  match v with
  | JNull => lit "null"
  | JBool true => lit "true"
  | JBool false => lit "false"
  | JNumber r => r
  | JString s => QuoteJSONString s
  | JArray items => lit "[" ++ join (lit ",") (List.map JSON_stringify items) ++ lit "]"
  | JObject props =>
      lit "{"
      ++ join (lit ",")
           (List.map (fun p => QuoteJSONString (fst p) ++ lit ":" ++ JSON_stringify (snd p))
                     props)
      ++ lit "}"
  end.

(** *** Conversion to a string

    [ToString] on a parsed JSON value.  An array joins its elements with
    commas, [null] elements giving the empty string.  An object answers
    through [Object.prototype.toString] unless it shadows [toString] with
    an own property, which in parsed JSON is never callable: then neither
    [toString] nor [valueOf] yields a primitive and the conversion throws
    a TypeError, with a message of the engine's wording. *)
Fixpoint ToString (v : json) : jserror + jsstring :=
  match v with
  | JNull => inr (lit "null")
  | JBool true => inr (lit "true")
  | JBool false => inr (lit "false")
  | JNumber r => inr r
  | JString s => inr s
  | JArray items =>
      (fix join_items (l : list json) : jserror + jsstring :=
         match l with
         | [] => inr []
         | x :: l' =>
             match (match x with JNull => inr [] | _ => ToString x end) with
             | inl e => inl e
             | inr a =>
                 match l' with
                 | [] => inr a
                 | _ :: _ =>
                     match join_items l' with
                     | inl e => inl e
                     | inr b => inr (a ++ lit "," ++ b)
                     end
                 end
             end
         end) items
  | JObject props =>
      match assoc (lit "toString") props with
      | Some _ => inl (TypeError (lit "Cannot convert object to primitive value"))
      | None => inr (lit "[object Object]")
      end
  end.

(** The conversion an [innerText] assignment applies to its right-hand
    side, a DOMString with LegacyNullToEmptyString; [None] is [undefined]. *)
Definition to_DOMString (v : option json) : jserror + jsstring :=
  match v with
  | None => inr (lit "undefined")
  | Some JNull => inr []
  | Some v => ToString v
  end.

(** [data.name] for a name no built-in prototype defines, as [response]:
    an own property of an object, [undefined] on any other value, and a
    TypeError on [null], with a message of the engine's wording. *)
Definition get_property (data : json) (name : jsstring) : jserror + option json :=
  match data with
  | JNull => inl (TypeError (lit "Cannot read properties of null"))
  | JObject props => inr (assoc name props)
  | _ => inr None
  end.

(** ** The page

    An element is known by its id, and a reference to an element is that
    id: nothing here removes an element or renames one, so the reference a
    callback captured keeps denoting the element it was taken from.
    [value] is [None] on an element whose [value] is not a string:
    [undefined] on an element that is not a form control, a number on a
    few others; [trim] cannot be called on either.  [innerText] is the text last
    assigned to the element. *)

Record Element : Type := mkElement {
  value : option jsstring;
  innerText : jsstring;
  classList : list jsstring
}.

Abbreviation elemref := (list N).

Record RequestInit : Type := mkRequestInit {
  method : jsstring;
  headers : list (jsstring * jsstring);
  body : jsstring
}.

(** What the handler does to the world outside its own variables. *)
Inductive effect : Type :=
  | SetInnerText (el : elemref) (text : jsstring)
  | ClassListRemove (el : elemref) (token : jsstring)
  | ClassListAdd (el : elemref) (token : jsstring)
  | Fetch (url : jsstring) (init : RequestInit)
  | ConsoleError (err : jserror).

(** The variables of [askQuestion] its three callbacks close over; a
    variable holds an element or [null]. *)
Record closure : Type := mkClosure {
  cl_responseDiv : option elemref;
  cl_loader : option elemref
}.

Record World : Type := mkWorld {
  document : gmap (list N) Element;
  trace : list effect;
  pending : list (nat * closure)
}.

(** ** The monad of handler code: state and exceptions *)

Inductive completion (A : Type) : Type :=
  | Normal (a : A)
  | Throw (e : jserror).
Arguments Normal {A} a.
Arguments Throw {A} e.

Definition JS (A : Type) : Type := World -> completion A * World.

Definition ret {A} (a : A) : JS A := fun w => (Normal a, w).

Definition throw {A} (e : jserror) : JS A := fun w => (Throw e, w).

Definition bind {A B} (c : JS A) (k : A -> JS B) : JS B :=
  fun w =>
    match c w with
    | (Normal a, w') => k a w'
    | (Throw e, w') => (Throw e, w')
    end.

(** [c.catch(h)]: [h] runs on what [c] threw, in the world [c] left. *)
Definition catch {A} (c : JS A) (h : jserror -> JS A) : JS A :=
  fun w =>
    match c w with
    | (Normal a, w') => (Normal a, w')
    | (Throw e, w') => h e w'
    end.

Definition lift {A} (r : jserror + A) : JS A :=
  match r with
  | inl e => throw e
  | inr a => ret a
  end.

Notation "x <- c ;; k" := (bind c (fun x => k))
  (at level 100, c at next level, right associativity).
Notation "c ;;; k" := (bind c (fun _ => k))
  (at level 100, right associativity).

(** ** Browser operations *)

(** Reading or writing a property of [null].  The engine words the
    message of the TypeError; the text here stands for it, and what is
    stated of a thrown error is stated up to its message. *)
Definition null_deref {A} : JS A :=
  throw (TypeError (lit "Cannot read properties of null")).

Definition emit (e : effect) (w : World) : World :=
  mkWorld (document w) (trace w ++ [e]) (pending w).

Definition update (el : elemref) (f : Element -> Element) (w : World) : World :=
  mkWorld (alter f el (document w)) (trace w) (pending w).

Definition getElementById (id : jsstring) : JS (option elemref) :=
  fun w =>
    match document w !! id with
    | Some _ => (Normal (Some id), w)
    | None => (Normal None, w)
    end.

(** [el.value] *)
Definition get_value (el : option elemref) : JS (option jsstring) :=
  match el with
  | None => null_deref
  | Some r => fun w => (Normal (e ← document w !! r; value e), w)
  end.

(** [v.trim()] *)
Definition String_trim (v : option jsstring) : JS jsstring :=
  match v with
  | None => throw (TypeError (lit "Cannot read properties of undefined"))
  | Some s => ret (trim s)
  end.

(** [el.innerText = text].  The assignment replaces whatever the element
    contains; the page keeps no element inside another, so the one entry
    of the element changes. *)
Definition set_innerText (el : option elemref) (text : jsstring) : JS unit :=
  match el with
  | None => null_deref
  | Some r => fun w =>
      (Normal tt,
       emit (SetInnerText r text)
         (update r (fun e => mkElement (value e) text (classList e)) w))
  end.

Definition remove_token (token : jsstring) (l : list jsstring) : list jsstring :=
  List.filter (fun t => negb (bool_decide (t = token))) l.

Definition add_token (token : jsstring) (l : list jsstring) : list jsstring :=
  if bool_decide (token ∈ l) then l else l ++ [token].

(** [el.classList.remove(token)] *)
Definition classList_remove (el : option elemref) (token : jsstring) : JS unit :=
  match el with
  | None => null_deref
  | Some r => fun w =>
      (Normal tt,
       emit (ClassListRemove r token)
         (update r (fun e => mkElement (value e) (innerText e)
                               (remove_token token (classList e))) w))
  end.

(** [el.classList.add(token)] *)
Definition classList_add (el : option elemref) (token : jsstring) : JS unit :=
  match el with
  | None => null_deref
  | Some r => fun w =>
      (Normal tt,
       emit (ClassListAdd r token)
         (update r (fun e => mkElement (value e) (innerText e)
                               (add_token token (classList e))) w))
  end.

Definition is_fetch (e : effect) : bool :=
  match e with Fetch _ _ => true | _ => false end.

(** The requests issued so far, oldest first. *)
Definition requests (t : list effect) : list effect := List.filter is_fetch t.

(** [fetch(url, init)]: the request goes out and a promise comes back,
    named by the number of requests issued before it. *)
Definition fetch (url : jsstring) (init : RequestInit) : JS nat :=
  fun w => (Normal (length (requests (trace w))), emit (Fetch url init) w).

(** [console.error(err)] *)
Definition console_error (err : jserror) : JS unit :=
  fun w => (Normal tt, emit (ConsoleError err) w).

(** Attaching the [.then(..).then(..).catch(..)] chain to promise [p]:
    the callbacks wait, with the variables they captured. *)
Definition subscribe (p : nat) (cl : closure) : JS unit :=
  fun w => (Normal tt, mkWorld (document w) (trace w) (pending w ++ [(p, cl)])).

(** ** What the server side can do to a request *)

(** What [response.json()] will settle to: the value the body denotes, or
    the error of reading or parsing the body. *)
Inductive json_outcome : Type :=
  | ParsesAs (data : json)
  | ParseFails (err : jserror).

Record Response : Type := mkResponse {
  status : N;
  json_result : json_outcome
}.

(** How the promise of [fetch] settles.  It is fulfilled as soon as the
    server answers, whatever the status; it is rejected when no answer
    arrives. *)
Inductive outcome : Type :=
  | Fulfilled (r : Response)
  | Rejected (err : jserror).

(** ** The handler *)

Definition id_question : jsstring := lit "question".
Definition id_response : jsstring := lit "response".
Definition id_loader : jsstring := lit "loader".
Definition hidden : jsstring := lit "hidden".

Definition validation_message : jsstring := lit " Please enter a question.".
Definition error_message : jsstring := lit " Error connecting to server.".

Definition ask_request (question : jsstring) : RequestInit :=
  {| method := lit "POST";
     headers := [(lit "Content-Type", lit "application/json")];
     body := JSON_stringify (JObject [(lit "question", JString question)]) |}.

(** Lines 1 to 21, and the registration of the callbacks of lines 22 to 31. *)
Definition askQuestion : JS unit :=
  questionInput <- getElementById id_question;;
  responseDiv <- getElementById id_response;;
  loader <- getElementById id_loader;;
  v <- get_value questionInput;;
  question <- String_trim v;;
  match question with
  | [] =>
      set_innerText responseDiv validation_message
  | _ :: _ =>
      set_innerText responseDiv [];;;
      classList_remove loader hidden;;;
      p <- fetch (lit "/ask") (ask_request question);;
      subscribe p (mkClosure responseDiv loader)
  end.

(** [response => response.json()], line 22. *)
Definition on_response (r : Response) : JS json :=
  match json_result r with
  | ParsesAs data => ret data
  | ParseFails e => throw e
  end.

(** [data => { ... }], lines 23 to 26. *)
Definition on_data (cl : closure) (data : json) : JS unit :=
  classList_add (cl_loader cl) hidden;;;
  v <- lift (get_property data (lit "response"));;
  text <- lift (to_DOMString v);;
  set_innerText (cl_responseDiv cl) text.

(** [err => { ... }], lines 27 to 31. *)
Definition on_error (cl : closure) (err : jserror) : JS unit :=
  classList_add (cl_loader cl) hidden;;;
  set_innerText (cl_responseDiv cl) error_message;;;
  console_error err.

(** The whole chain, run when the promise of [fetch] settles: a rejection
    skips both [then] callbacks, and whatever either of them throws lands
    in the [catch] callback. *)
Definition on_settled (cl : closure) (o : outcome) : JS unit :=
  catch
    (data <- match o with
             | Fulfilled r => on_response r
             | Rejected e => throw e
             end;;
     on_data cl data)
    (on_error cl).

(** ** The page as a transition system

    Three things happen to the page: the user clicks and the handler runs;
    a request issued earlier settles and its callback chain runs; the user
    edits the input.  The chain writes to the page in one go, in its
    second [then] callback or in its [catch] callback, so a settlement is
    one event, taken at the moment that callback runs. *)

Inductive event : Type :=
  | Invoke
  | Settle (p : nat) (o : outcome)
  | UserInput (text : jsstring).

Fixpoint take_pending (p : nat) (l : list (nat * closure))
  : option (closure * list (nat * closure)) :=
  match l with
  | [] => None
  | (q, cl) :: l' =>
      if decide (p = q) then Some (cl, l')
      else match take_pending p l' with
           | Some (c, rest) => Some (c, (q, cl) :: rest)
           | None => None
           end
  end.

(** One event.  An exception that leaves the handler is dropped: what the
    handler did before throwing stays done.  Settling a promise nobody
    waits for changes nothing. *)
Definition step (w : World) (ev : event) : World :=
  match ev with
  | Invoke => snd (askQuestion w)
  | Settle p o =>
      match take_pending p (pending w) with
      | Some (cl, rest) =>
          snd (on_settled cl o (mkWorld (document w) (trace w) rest))
      | None => w
      end
  | UserInput text =>
      update id_question
        (fun e => match value e with
                  | Some _ => mkElement (Some text) (innerText e) (classList e)
                  | None => e
                  end) w
  end.

Definition run (w : World) (evs : list event) : World := fold_left step evs w.

(** ** Observations *)

Definition input_value (w : World) : option jsstring :=
  e ← document w !! id_question; value e.

Definition output_text (w : World) : option jsstring :=
  innerText <$> document w !! id_response.

Definition loader_classes (w : World) : option (list jsstring) :=
  classList <$> document w !! id_loader.

Definition loader_hidden (w : World) : bool :=
  match loader_classes w with
  | Some cs => bool_decide (hidden ∈ cs)
  | None => false
  end.

Definition loader_visible (w : World) : bool :=
  match loader_classes w with
  | Some cs => negb (bool_decide (hidden ∈ cs))
  | None => false
  end.

Definition has_element (w : World) (id : jsstring) : bool :=
  match document w !! id with
  | Some _ => true
  | None => false
  end.

(** The page the handler is written for: a form control [question], and
    elements [response] and [loader]. *)
Definition page_ready (w : World) : bool :=
  match input_value w with
  | Some _ => has_element w id_response && has_element w id_loader
  | None => false
  end.

Definition in_flight (w : World) (p : nat) : bool :=
  bool_decide (p ∈ (List.map fst (pending w))).

(** The promise the next call of [fetch] will return. *)
Definition next_promise (w : World) : nat := length (requests (trace w)).

Definition console (t : list effect) : list jserror :=
  omap (fun e => match e with ConsoleError err => Some err | _ => None end) t.

(** A sample page: the question typed, nothing shown, loader hidden. *)
Definition sample_page (typed : jsstring) : World :=
  mkWorld
    (<[id_question := mkElement (Some typed) [] []]>
       (<[id_response := mkElement None [] []]>
          (<[id_loader := mkElement None [] [hidden]]> ∅)))
    [] [].

#[global] Instance closure_eq_dec : EqDecision closure.
Proof. solve_decision. Defined.

(** What [askQuestion] hands to its callbacks on a page that has the
    elements: both variables hold their element. *)
Definition handler_closure : closure :=
  mkClosure (Some id_response) (Some id_loader).

(** The page is there and every waiting callback chain is one that
    [askQuestion] attached on it. *)
Definition consistent (w : World) : bool :=
  page_ready w
  && forallb (fun pc => bool_decide (snd pc = handler_closure)) (pending w).

(** The failure of a request, when it failed: the error [fetch] rejected
    with, or the one [response.json()] rejected with. *)
Definition failure_of (o : outcome) : option jserror :=
  match o with
  | Rejected e => Some e
  | Fulfilled r =>
      match json_result r with
      | ParseFails e => Some e
      | ParsesAs _ => None
      end
  end.

Definition is_settle (ev : event) : bool :=
  match ev with Settle _ _ => true | _ => false end.

(** One submission awaited to completion: the handler runs, and the
    request it issued settles as [o] before anything else happens. *)
Definition submit (o : outcome) (w : World) : World :=
  step (step w Invoke) (Settle (next_promise w) o).

(** ** The handler's moves on the world

    The four things the handler and its callbacks do to the page, each an
    element update together with its entry in the trace. *)

Definition show_text (text : jsstring) (w : World) : World :=
  emit (SetInnerText id_response text)
    (update id_response (fun e => mkElement (value e) text (classList e)) w).

Definition reveal_loader (w : World) : World :=
  emit (ClassListRemove id_loader hidden)
    (update id_loader
       (fun e => mkElement (value e) (innerText e) (remove_token hidden (classList e))) w).

Definition hide_loader (w : World) : World :=
  emit (ClassListAdd id_loader hidden)
    (update id_loader
       (fun e => mkElement (value e) (innerText e) (add_token hidden (classList e))) w).

Definition issue (question : jsstring) (w : World) : World :=
  mkWorld (document w)
    (trace w ++ [Fetch (lit "/ask") (ask_request question)])
    (pending w ++ [(next_promise w, handler_closure)]).

(** The text the callback chain is about to assign from a settled
    request, or the error that sends it to the [catch] callback. *)
Definition rendering (o : outcome) : jserror + jsstring :=
  match o with
  | Rejected e => inl e
  | Fulfilled r =>
      match json_result r with
      | ParseFails e => inl e
      | ParsesAs data =>
          match get_property data (lit "response") with
          | inl e => inl e
          | inr v => to_DOMString v
          end
      end
  end.

(** The text on the page once the chain has run. *)
Definition shown (o : outcome) : jsstring :=
  match rendering o with
  | inr text => text
  | inl _ => error_message
  end.

(** The world the chain of [askQuestion] leaves behind. *)
Definition settled (o : outcome) (w : World) : World :=
  match rendering o with
  | inr text => show_text text (hide_loader w)
  | inl e =>
      match failure_of o with
      | Some _ => emit (ConsoleError e) (show_text error_message (hide_loader w))
      | None =>
          emit (ConsoleError e) (show_text error_message (hide_loader (hide_loader w)))
      end
  end.

(** A computation that leaves the text of the input as it found it. *)
Definition keeps_input {A} (c : JS A) : Prop :=
  forall w, input_value (snd (c w)) = input_value w.

(** A computation that leaves an observation of the world as it found it. *)
Definition preserves {A T} (obs : World -> T) (c : JS A) : Prop :=
  forall w, obs (snd (c w)) = obs w.

Definition sent (w : World) : list effect := requests (trace w).

(** The page of [sample_page] without its loading indicator. *)
Definition page_without_loader (typed : jsstring) : World :=
  mkWorld
    (<[id_question := mkElement (Some typed) [] []]>
       (<[id_response := mkElement None (lit "old") []]> ∅))
    [] [].

(** A page whose loading indicator carries classes and text of its own. *)
Definition styled_page (typed : jsstring) : World :=
  mkWorld
    (<[id_question := mkElement (Some typed) [] []]>
       (<[id_response := mkElement None [] [lit "answer"]]>
          (<[id_loader := mkElement None (lit "...")
                            [lit "spinner"; hidden; lit "big"]]> ∅)))
    [] [].

(** ** Reading a quoted string back

    The inverse of [quote_units], used to show that quoting loses nothing
    of a question: every escape [quote_unit] writes is read back to the
    code unit it stands for, and any other code unit is taken as it is. *)

Definition hex_value (h : N) : N :=
  if h <? 58 then h - 48 else h - 87.

Definition unescape (x : N) : N :=
  if x =? 98 then 0x08
  else if x =? 116 then 0x09
  else if x =? 110 then 0x0A
  else if x =? 102 then 0x0C
  else if x =? 114 then 0x0D
  else x.

Fixpoint unquote_units (s : jsstring) : jsstring :=
  match s with
  | [] => []
  | c :: rest =>
      if c =? 92 then
        match rest with
        | [] => []
        | x :: rest' =>
            if x =? 117 then
              match rest' with
              | h3 :: h2 :: h1 :: h0 :: rest'' =>
                  (4096 * hex_value h3 + 256 * hex_value h2
                   + 16 * hex_value h1 + hex_value h0)
                  :: unquote_units rest''
              | _ => []
              end
            else unescape x :: unquote_units rest'
        end
      else c :: unquote_units rest
  end.

(** * Theorems *)

Example trim_ex : trim (lit "  hi there  ") = lit "hi there".
Proof. reflexivity. Qed.

Example trim_unicode_ex : trim [0xFEFF; 9; 104; 32; 105; 0x3000; 10] = [104; 32; 105].
Proof. reflexivity. Qed.

Example to_DOMString_ex :
  to_DOMString (Some (JArray [JNumber (lit "1"); JNull; JString (lit "a"); JArray [JBool true]]))
  = inr (lit "1,,a,true")
  /\ to_DOMString None = inr (lit "undefined")
  /\ to_DOMString (Some JNull) = inr []
  /\ to_DOMString (Some (JObject [(lit "a", JNull)])) = inr (lit "[object Object]").
Proof. repeat split. Qed.

Example quote_ex :
  QuoteJSONString [0xD83D; 0xDE00; 0xD800; 1; 92] 
  = [34; 0xD83D; 0xDE00] ++ lit "\ud800\u0001\\" ++ [34].
Proof. reflexivity. Qed.

Example stringify_ex :
  JSON_stringify (JObject [(lit "question", JString [97; 34; 10; 98])])
  = lit "{" ++ [34] ++ lit "question" ++ [34] ++ lit ":"
    ++ [34] ++ lit "a\" ++ [34] ++ lit "\nb" ++ [34] ++ lit "}".
Proof. reflexivity. Qed.

(** ** Trimming *)

Lemma trimStart_blank (s : jsstring) :
  forallb is_white_space s = true -> trimStart s = [].
Proof.
  induction s as [|c s IH]; simpl; [done|].
  intros [Hc Hs]%andb_true_iff. rewrite Hc. auto.
Qed.

Lemma trimStart_nil (s : jsstring) :
  trimStart s = [] -> forallb is_white_space s = true.
Proof.
  induction s as [|c s IH]; simpl; [done|].
  destruct (is_white_space c); [auto | discriminate].
Qed.

Lemma trimStart_head (s : jsstring) c t :
  trimStart s = c :: t -> is_white_space c = false.
Proof.
  induction s as [|d s IH]; simpl; [discriminate|].
  destruct (is_white_space d) eqn:Hd; [auto|].
  intros [= -> _]. exact Hd.
Qed.

Lemma forallb_rev (f : N -> bool) (s : jsstring) :
  forallb f (rev s) = true -> forallb f s = true.
Proof.
  rewrite !forallb_forall. intros H x Hx. apply H. by apply in_rev in Hx.
Qed.

(** The trimmed text is empty exactly when every code unit is white space. *)
Lemma trim_blank (s : jsstring) :
  forallb is_white_space s = true <-> trim s = [].
Proof.
  unfold trim, trimEnd. split.
  - intros H. by rewrite (trimStart_blank s H).
  - intros H. destruct (trimStart s) as [|c t] eqn:Ht.
    + by apply trimStart_nil.
    + assert (Hr : trimStart (rev (c :: t)) = []).
      { destruct (trimStart (rev (c :: t))) as [|x l] eqn:E; [done|].
        simpl in H. destruct (rev l); discriminate. }
      apply trimStart_nil, forallb_rev in Hr. simpl in Hr.
      apply trimStart_head in Ht. rewrite Ht in Hr. discriminate.
Qed.

(** ** The page and its elements *)

Lemma page_ready_elim (w : World) :
  page_ready w = true ->
  exists qe v re le,
    document w !! id_question = Some qe /\ value qe = Some v
    /\ document w !! id_response = Some re
    /\ document w !! id_loader = Some le.
Proof.
  unfold page_ready, input_value, has_element.
  destruct (document w !! id_question) as [qe|] eqn:Hq; simpl; [|done].
  destruct (value qe) as [v|] eqn:Hv; [|done].
  destruct (document w !! id_response) as [re|]; [|done].
  destruct (document w !! id_loader) as [le|]; [|done].
  intros _. by exists qe, v, re, le.
Qed.

Lemma input_value_elim (w : World) v :
  input_value w = Some v ->
  exists qe, document w !! id_question = Some qe /\ value qe = Some v.
Proof.
  unfold input_value. destruct (document w !! id_question) as [qe|]; simpl; [|done].
  intros H. by exists qe.
Qed.

(** ** The handler, run *)

Lemma askQuestion_prefix (w : World) v :
  page_ready w = true -> input_value w = Some v ->
  askQuestion w =
    match trim v with
    | [] => set_innerText (Some id_response) validation_message w
    | _ :: _ =>
        (set_innerText (Some id_response) [];;;
         classList_remove (Some id_loader) hidden;;;
         p <- fetch (lit "/ask") (ask_request (trim v));;
         subscribe p handler_closure) w
    end.
Proof.
  intros (qe & v' & re & le & Hq & Hv & Hr & Hl)%page_ready_elim Hin.
  unfold input_value in Hin. rewrite Hq in Hin. simpl in Hin.
  unfold askQuestion, bind, getElementById, get_value, String_trim, ret.
  rewrite Hq, Hr, Hl. simpl. rewrite Hq. simpl. rewrite Hin.
  by destruct (trim v).
Qed.

Lemma askQuestion_blank (w : World) v :
  page_ready w = true -> input_value w = Some v -> trim v = [] ->
  askQuestion w = (Normal tt, show_text validation_message w).
Proof.
  intros Hp Hv Ht. rewrite (askQuestion_prefix w v Hp Hv), Ht. done.
Qed.

Lemma askQuestion_valid (w : World) v :
  page_ready w = true -> input_value w = Some v -> trim v <> [] ->
  askQuestion w =
    (p <- fetch (lit "/ask") (ask_request (trim v));;
     subscribe p handler_closure) (reveal_loader (show_text [] w)).
Proof.
  intros Hp Hv Ht. rewrite (askQuestion_prefix w v Hp Hv).
  destruct (trim v); done.
Qed.

Lemma requests_app (t u : list effect) : requests (t ++ u) = requests t ++ requests u.
Proof. unfold requests. apply List.filter_app. Qed.

Lemma next_promise_show_loading (w : World) :
  next_promise (reveal_loader (show_text [] w)) = next_promise w.
Proof.
  unfold next_promise. simpl. rewrite !requests_app. simpl.
  by rewrite !app_nil_r.
Qed.

Lemma askQuestion_issue (w : World) v :
  page_ready w = true -> input_value w = Some v -> trim v <> [] ->
  askQuestion w = (Normal tt, issue (trim v) (reveal_loader (show_text [] w))).
Proof.
  intros Hp Hv Ht. by rewrite (askQuestion_valid w v Hp Hv Ht).
Qed.

(** ** Reading the page after a move *)

Lemma lookup_update el f (w : World) id :
  document (update el f w) !! id
  = if decide (el = id) then f <$> document w !! el else document w !! id.
Proof. apply lookup_alter. Qed.

Lemma lookup_show_text text (w : World) id :
  document (show_text text w) !! id
  = if decide (id_response = id)
    then (fun e => mkElement (value e) text (classList e)) <$> document w !! id_response
    else document w !! id.
Proof. apply lookup_alter. Qed.

Lemma lookup_reveal_loader (w : World) id :
  document (reveal_loader w) !! id
  = if decide (id_loader = id)
    then (fun e => mkElement (value e) (innerText e) (remove_token hidden (classList e)))
           <$> document w !! id_loader
    else document w !! id.
Proof. apply lookup_alter. Qed.

Lemma lookup_hide_loader (w : World) id :
  document (hide_loader w) !! id
  = if decide (id_loader = id)
    then (fun e => mkElement (value e) (innerText e) (add_token hidden (classList e)))
           <$> document w !! id_loader
    else document w !! id.
Proof. apply lookup_alter. Qed.

Lemma document_emit e (w : World) : document (emit e w) = document w.
Proof. done. Qed.

Lemma document_issue q (w : World) : document (issue q w) = document w.
Proof. done. Qed.

Create Rewrite HintDb page.
#[local] Hint Rewrite lookup_show_text lookup_reveal_loader lookup_hide_loader
  document_emit document_issue : page.

(** Unfold an observation and push it through the moves. *)
Ltac observe :=
  unfold output_text, loader_classes, input_value, has_element;
  autorewrite with page;
  repeat (case_decide; try discriminate);
  try done.

Lemma add_token_hidden (l : list jsstring) : bool_decide (hidden ∈ add_token hidden l) = true.
Proof.
  unfold add_token. apply bool_decide_eq_true.
  destruct (bool_decide (hidden ∈ l)) eqn:E.
  - by apply bool_decide_eq_true in E.
  - apply elem_of_app. right. by apply list_elem_of_singleton.
Qed.

Lemma remove_token_hidden (l : list jsstring) :
  bool_decide (hidden ∈ remove_token hidden l) = false.
Proof.
  apply bool_decide_eq_false. unfold remove_token.
  rewrite list_elem_of_In, List.filter_In. intros [_ H].
  by rewrite bool_decide_eq_true_2 in H.
Qed.

(** ** The callback chain, run *)

Lemma on_settled_run (o : outcome) (w : World) :
  on_settled handler_closure o w = (Normal tt, settled o w).
Proof.
  unfold settled, rendering, failure_of, on_settled, on_response.
  destruct o as [[st [data|e]]|e]; simpl; try reflexivity.
  unfold catch, bind, on_data, bind. simpl.
  destruct (get_property data (lit "response")) as [e|v]; simpl; [reflexivity|].
  destruct (to_DOMString v) as [e|text]; reflexivity.
Qed.

Lemma take_pending_handler p (l : list (nat * closure)) :
  forallb (fun pc => bool_decide (snd pc = handler_closure)) l = true ->
  p ∈ List.map fst l ->
  exists rest,
    take_pending p l = Some (handler_closure, rest)
    /\ forallb (fun pc => bool_decide (snd pc = handler_closure)) rest = true.
Proof.
  induction l as [|[q cl] l IH]; simpl; intros Hall Hin.
  - by apply elem_of_nil in Hin.
  - apply andb_true_iff in Hall as [Hcl Hall].
    apply bool_decide_eq_true in Hcl. simpl in Hcl. subst cl.
    destruct (decide (p = q)) as [->|Hne].
    + by exists l.
    + apply elem_of_cons in Hin as [?|Hin]; [done|].
      destruct (IH Hall Hin) as (rest & -> & Hrest).
      exists ((q, handler_closure) :: rest). split; [done|].
      cbn [forallb]. apply andb_true_iff.
      split; [by apply bool_decide_eq_true_2 | done].
Qed.

Lemma step_settle (w : World) p o :
  consistent w = true -> in_flight w p = true ->
  exists rest,
    take_pending p (pending w) = Some (handler_closure, rest)
    /\ forallb (fun pc => bool_decide (snd pc = handler_closure)) rest = true
    /\ step w (Settle p o) = settled o (mkWorld (document w) (trace w) rest).
Proof.
  unfold consistent, in_flight.
  intros [_ Hall]%andb_true_iff Hin%bool_decide_eq_true.
  destruct (take_pending_handler p (pending w) Hall Hin) as (rest & Ht & Hrest).
  exists rest. repeat split; [done..|].
  simpl. by rewrite Ht, on_settled_run.
Qed.

(** ** What each move leaves readable *)

Section Observations.
Variable w : World.

Lemma input_value_show_text t : input_value (show_text t w) = input_value w.
Proof. observe. Qed.

Lemma input_value_reveal_loader : input_value (reveal_loader w) = input_value w.
Proof. observe. Qed.

Lemma input_value_hide_loader : input_value (hide_loader w) = input_value w.
Proof. observe. Qed.

Lemma has_element_show_text t id : has_element (show_text t w) id = has_element w id.
Proof. observe; subst; by destruct (document w !! id_response). Qed.

Lemma has_element_reveal_loader id : has_element (reveal_loader w) id = has_element w id.
Proof. observe; subst; by destruct (document w !! id_loader). Qed.

Lemma has_element_hide_loader id : has_element (hide_loader w) id = has_element w id.
Proof. observe; subst; by destruct (document w !! id_loader). Qed.

Lemma output_text_show_text t :
  has_element w id_response = true -> output_text (show_text t w) = Some t.
Proof. observe. by destruct (document w !! id_response). Qed.

Lemma output_text_reveal_loader : output_text (reveal_loader w) = output_text w.
Proof. observe. Qed.

Lemma loader_show_text t :
  document (show_text t w) !! id_loader = document w !! id_loader.
Proof. observe. Qed.

Lemma loader_hidden_hide_loader :
  has_element w id_loader = true -> loader_hidden (hide_loader w) = true.
Proof.
  unfold loader_hidden. observe.
  destruct (document w !! id_loader); [|done]. intros _. apply add_token_hidden.
Qed.

Lemma loader_visible_reveal_loader :
  has_element w id_loader = true -> loader_visible (reveal_loader w) = true.
Proof.
  unfold loader_visible. observe.
  destruct (document w !! id_loader); [|done]. intros _. simpl.
  by rewrite remove_token_hidden.
Qed.
End Observations.

Lemma page_ready_show_text t (w : World) : page_ready (show_text t w) = page_ready w.
Proof. unfold page_ready. by rewrite input_value_show_text, !has_element_show_text. Qed.

Lemma page_ready_reveal_loader (w : World) : page_ready (reveal_loader w) = page_ready w.
Proof. unfold page_ready. by rewrite input_value_reveal_loader, !has_element_reveal_loader. Qed.

Lemma page_ready_hide_loader (w : World) : page_ready (hide_loader w) = page_ready w.
Proof. unfold page_ready. by rewrite input_value_hide_loader, !has_element_hide_loader. Qed.

Lemma page_ready_elements (w : World) :
  page_ready w = true ->
  has_element w id_response = true /\ has_element w id_loader = true.
Proof.
  unfold page_ready. destruct (input_value w); [|done].
  by intros ?%andb_true_iff.
Qed.

Lemma page_ready_settled o (w : World) : page_ready (settled o w) = page_ready w.
Proof.
  unfold settled.
  destruct (rendering o); [destruct (failure_of o)|];
    change (page_ready (emit ?e ?x)) with (page_ready x);
    by rewrite ?page_ready_show_text, ?page_ready_hide_loader.
Qed.

Lemma output_text_settled o (w : World) :
  has_element w id_response = true -> output_text (settled o w) = Some (shown o).
Proof.
  intros H. unfold settled, shown.
  destruct (rendering o); [destruct (failure_of o)|];
    change (output_text (emit ?e ?x)) with (output_text x);
    by rewrite output_text_show_text; rewrite ?has_element_hide_loader.
Qed.

Lemma loader_hidden_show_text t (w : World) :
  loader_hidden (show_text t w) = loader_hidden w.
Proof. unfold loader_hidden, loader_classes. by rewrite loader_show_text. Qed.

Lemma loader_hidden_settled o (w : World) :
  has_element w id_loader = true -> loader_hidden (settled o w) = true.
Proof.
  intros H. unfold settled.
  destruct (rendering o); [destruct (failure_of o)|];
    change (loader_hidden (emit ?e ?x)) with (loader_hidden x);
    rewrite loader_hidden_show_text;
    by rewrite loader_hidden_hide_loader; rewrite ?has_element_hide_loader.
Qed.

Lemma pending_settled o (w : World) : pending (settled o w) = pending w.
Proof. unfold settled. by destruct (rendering o); [destruct (failure_of o)|]. Qed.

(** ** The invariant of the page *)

Lemma consistent_invoke (w : World) : consistent w = true -> consistent (step w Invoke) = true.
Proof.
  unfold consistent. intros [Hp Hall]%andb_true_iff.
  destruct (input_value w) as [v|] eqn:Hv;
    [|by unfold page_ready in Hp; rewrite Hv in Hp].
  simpl. destruct (trim v) as [|c q] eqn:Ht.
  - rewrite (askQuestion_blank w v Hp Hv Ht). simpl.
    rewrite page_ready_show_text, Hp. done.
  - rewrite (askQuestion_issue w v Hp Hv) by by rewrite Ht.
    cbn [snd]. change (page_ready (issue ?q ?x)) with (page_ready x).
    rewrite page_ready_reveal_loader, page_ready_show_text, Hp.
    cbn [andb issue pending]. simpl pending.
    rewrite forallb_app, Hall. done.
Qed.

Lemma take_pending_none p (l : list (nat * closure)) :
  p ∉ List.map fst l -> take_pending p l = None.
Proof.
  induction l as [|[q cl] l IH]; simpl; [done|].
  intros Hn. destruct (decide (p = q)) as [->|Hne].
  - exfalso. apply Hn. apply elem_of_cons. by left.
  - rewrite IH; [done|]. intros H. apply Hn. apply elem_of_cons. by right.
Qed.

Lemma consistent_settle (w : World) p o :
  consistent w = true -> consistent (step w (Settle p o)) = true.
Proof.
  intros Hc. destruct (in_flight w p) eqn:Hin.
  - destruct (step_settle w p o Hc Hin) as (rest & _ & Hrest & ->).
    unfold consistent. rewrite page_ready_settled, pending_settled.
    apply andb_true_iff in Hc as [Hp _].
    change (page_ready (mkWorld (document w) (trace w) rest)) with (page_ready w).
    by rewrite Hp.
  - apply bool_decide_eq_false in Hin. simpl.
    by rewrite (take_pending_none p (pending w) Hin).
Qed.

Lemma page_ready_user_input (w : World) text :
  page_ready w = true -> page_ready (step w (UserInput text)) = true.
Proof.
  intros (qe & v & re & le & Hq & Hv & Hr & Hl)%page_ready_elim.
  unfold page_ready, input_value, has_element. simpl.
  rewrite lookup_alter_eq, !lookup_alter_ne, Hq, Hr, Hl by discriminate.
  simpl. by rewrite Hv.
Qed.

Lemma consistent_user_input (w : World) text :
  consistent w = true -> consistent (step w (UserInput text)) = true.
Proof.
  unfold consistent. intros [Hp Hall]%andb_true_iff.
  apply andb_true_iff. split; [by apply page_ready_user_input | done].
Qed.

Lemma consistent_step (w : World) ev : consistent w = true -> consistent (step w ev) = true.
Proof.
  destruct ev; auto using consistent_invoke, consistent_settle, consistent_user_input.
Qed.

(** Every state the page reaches keeps the elements and only ever waits
    with callbacks of the handler. *)
Lemma consistent_run (evs : list event) (w : World) :
  consistent w = true -> consistent (run w evs) = true.
Proof.
  revert w. induction evs as [|ev evs IH]; intros w Hc; [done|].
  simpl. apply IH. by apply consistent_step.
Qed.

Lemma consistent_sample typed : consistent (sample_page typed) = true.
Proof. reflexivity. Qed.

(** ** The handler only reads the input *)

Section KeepsInput.
Context {A B : Type}.

Lemma keeps_ret (a : A) : keeps_input (ret a).
Proof. by intros w. Qed.

Lemma keeps_throw e : keeps_input (@throw A e).
Proof. by intros w. Qed.

Lemma keeps_lift (r : jserror + A) : keeps_input (lift r).
Proof. by destruct r; intros w. Qed.

Lemma keeps_bind (c : JS A) (k : A -> JS B) :
  keeps_input c -> (forall a, keeps_input (k a)) -> keeps_input (bind c k).
Proof.
  intros Hc Hk w. unfold bind. specialize (Hc w).
  destruct (c w) as [[a|e] w1]; simpl in *; [|done].
  by rewrite Hk.
Qed.

Lemma keeps_catch (c : JS A) (h : jserror -> JS A) :
  keeps_input c -> (forall e, keeps_input (h e)) -> keeps_input (catch c h).
Proof.
  intros Hc Hh w. unfold catch. specialize (Hc w).
  destruct (c w) as [[a|e] w1]; simpl in *; [done|].
  by rewrite Hh.
Qed.
End KeepsInput.

Lemma input_value_update el (f : Element -> Element) (w : World) :
  (forall e, value (f e) = value e) ->
  input_value (update el f w) = input_value w.
Proof.
  intros Hf. unfold input_value. rewrite lookup_update.
  case_decide; [subst el|done].
  destruct (document w !! id_question); simpl; [apply Hf | done].
Qed.

Lemma keeps_getElementById id : keeps_input (getElementById id).
Proof. intros w. unfold getElementById. by destruct (document w !! id). Qed.

Lemma keeps_get_value el : keeps_input (get_value el).
Proof. by destruct el; intros w. Qed.

Lemma keeps_String_trim v : keeps_input (String_trim v).
Proof. by destruct v; intros w. Qed.

Lemma keeps_set_innerText el text : keeps_input (set_innerText el text).
Proof. destruct el; intros w; [|done]. by apply input_value_update. Qed.

Lemma keeps_classList_remove el token : keeps_input (classList_remove el token).
Proof. destruct el; intros w; [|done]. by apply input_value_update. Qed.

Lemma keeps_classList_add el token : keeps_input (classList_add el token).
Proof. destruct el; intros w; [|done]. by apply input_value_update. Qed.

Lemma keeps_fetch url init : keeps_input (fetch url init).
Proof. by intros w. Qed.

Lemma keeps_subscribe p cl : keeps_input (subscribe p cl).
Proof. by intros w. Qed.

Lemma keeps_console_error e : keeps_input (console_error e).
Proof. by intros w. Qed.

#[local] Hint Resolve keeps_ret keeps_throw keeps_lift keeps_getElementById
  keeps_get_value keeps_String_trim keeps_set_innerText keeps_classList_remove
  keeps_classList_add keeps_fetch keeps_subscribe keeps_console_error : core.

(** Peel one statement off a sequence. *)
Ltac next_statement x := apply keeps_bind; [auto | intros x].

Lemma keeps_askQuestion : keeps_input askQuestion.
Proof.
  unfold askQuestion.
  next_statement questionInput. next_statement responseDiv.
  next_statement loader. next_statement v. next_statement question.
  destruct question; [auto|].
  next_statement u1. next_statement u2. next_statement p. auto.
Qed.

Lemma keeps_on_settled cl o : keeps_input (on_settled cl o).
Proof.
  unfold on_settled, on_data, on_error, on_response.
  apply keeps_catch.
  - apply keeps_bind.
    + destruct o as [r|e]; [destruct (json_result r)|]; auto.
    + intros data. next_statement u. next_statement v. next_statement text. auto.
  - intros e. next_statement u1. next_statement u2. auto.
Qed.

(** ** The loader between settlements *)

Lemma loader_visible_show_text t (w : World) :
  loader_visible (show_text t w) = loader_visible w.
Proof. unfold loader_visible, loader_classes. by rewrite loader_show_text. Qed.

Lemma visible_after_invoke (w : World) :
  page_ready w = true -> loader_visible w = true ->
  page_ready (step w Invoke) = true /\ loader_visible (step w Invoke) = true.
Proof.
  intros Hp Hl.
  destruct (input_value w) as [v|] eqn:Hv;
    [|by unfold page_ready in Hp; rewrite Hv in Hp].
  simpl. destruct (trim v) as [|c q] eqn:Ht.
  - rewrite (askQuestion_blank w v Hp Hv Ht). simpl.
    by rewrite page_ready_show_text, loader_visible_show_text.
  - rewrite (askQuestion_issue w v Hp Hv) by by rewrite Ht.
    cbn [snd].
    change (page_ready (issue ?q ?x)) with (page_ready x).
    change (loader_visible (issue ?q ?x)) with (loader_visible x).
    rewrite page_ready_reveal_loader, page_ready_show_text.
    split; [done|]. apply loader_visible_reveal_loader.
    rewrite has_element_show_text. by apply page_ready_elements.
Qed.

Lemma visible_after_user_input (w : World) text :
  page_ready w = true -> loader_visible w = true ->
  page_ready (step w (UserInput text)) = true
  /\ loader_visible (step w (UserInput text)) = true.
Proof.
  intros Hp Hl. split; [by apply page_ready_user_input|].
  unfold loader_visible, loader_classes in *. simpl.
  by rewrite lookup_alter_ne by discriminate.
Qed.

Lemma visible_while_unsettled (evs : list event) (w : World) :
  page_ready w = true -> loader_visible w = true ->
  forallb (fun ev => negb (is_settle ev)) evs = true ->
  loader_visible (run w evs) = true.
Proof.
  revert w. induction evs as [|ev evs IH]; intros w Hp Hl Hevs; [done|].
  simpl in Hevs. apply andb_true_iff in Hevs as [Hev Hevs].
  simpl. destruct ev as [|p o|text]; [|discriminate|].
  - destruct (visible_after_invoke w Hp Hl). by apply IH.
  - destruct (visible_after_user_input w text Hp Hl). by apply IH.
Qed.

Lemma failure_rendering o e : failure_of o = Some e -> rendering o = inl e.
Proof.
  destruct o as [[st [data|e']]|e']; simpl; try discriminate; by intros [= ->].
Qed.

Lemma console_app (t u : list effect) : console (t ++ u) = console t ++ console u.
Proof. unfold console. apply omap_app. Qed.


Lemma invoke_keeps_input (w : World) : input_value (step w Invoke) = input_value w.
Proof. apply keeps_askQuestion. Qed.

Lemma settle_keeps_input (w : World) p o :
  input_value (step w (Settle p o)) = input_value w.
Proof.
  simpl. destruct (take_pending p (pending w)) as [[cl rest]|]; [|done].
  by rewrite keeps_on_settled.
Qed.

Lemma failed_settle_page (w : World) p o e :
  consistent w = true -> in_flight w p = true -> failure_of o = Some e ->
  loader_hidden (step w (Settle p o)) = true
  /\ output_text (step w (Settle p o)) = Some error_message.
Proof.
  intros Hc Hin Hf.
  destruct (step_settle w p o Hc Hin) as (rest & _ & _ & ->).
  apply andb_true_iff in Hc as [Hp _].
  destruct (page_ready_elements w Hp) as [Hr Hl].
  split; [by apply loader_hidden_settled|].
  rewrite output_text_settled by done. unfold shown.
  by rewrite (failure_rendering o e Hf).
Qed.

(** * The claims *)

(** C1.  When the input is empty or all white space, the handler sends no
    request: it completes normally, its only effect is to assign the fixed
    validation message to the output area, and no callback is left waiting. *)
Theorem blank_input_is_rejected (w : World) (v : jsstring) :
  page_ready w = true ->
  input_value w = Some v ->
  forallb is_white_space v = true ->
  fst (askQuestion w) = Normal tt
  /\ trace (step w Invoke) = trace w ++ [SetInnerText id_response validation_message]
  /\ requests (trace (step w Invoke)) = requests (trace w)
  /\ pending (step w Invoke) = pending w
  /\ output_text (step w Invoke) = Some validation_message.
Proof.
  intros Hp Hv Hb. apply trim_blank in Hb.
  simpl. rewrite (askQuestion_blank w v Hp Hv Hb). simpl.
  repeat split.
  - rewrite requests_app. simpl. by rewrite app_nil_r.
  - apply output_text_show_text. by apply page_ready_elements.
Qed.

Lemma blank_input_is_rejected_witness :
  let w := sample_page (lit "   ") in
  fst (askQuestion w) = Normal tt
  /\ trace (step w Invoke) = trace w ++ [SetInnerText id_response validation_message]
  /\ requests (trace (step w Invoke)) = requests (trace w)
  /\ pending (step w Invoke) = pending w
  /\ output_text (step w Invoke) = Some validation_message.
Proof.
  apply (blank_input_is_rejected (sample_page (lit "   ")) (lit "   "));
    reflexivity.
Defined.

(** C2.  When the trimmed input is not empty, the handler issues exactly
    one request: POST to /ask, with the header Content-Type:
    application/json and, as body, the JSON text of the object whose one
    property [question] is the trimmed input. *)
Theorem valid_input_issues_one_request (w : World) (v : jsstring) :
  page_ready w = true ->
  input_value w = Some v ->
  trim v <> [] ->
  requests (trace (step w Invoke))
  = requests (trace w)
    ++ [Fetch (lit "/ask")
          {| method := lit "POST";
             headers := [(lit "Content-Type", lit "application/json")];
             body := JSON_stringify (JObject [(lit "question", JString (trim v))]) |}].
Proof.
  intros Hp Hv Ht. simpl. rewrite (askQuestion_issue w v Hp Hv Ht).
  simpl. rewrite !requests_app. simpl. by rewrite !app_nil_r.
Qed.

Lemma valid_input_issues_one_request_witness :
  requests (trace (step (sample_page (lit " hi ")) Invoke))
  = [Fetch (lit "/ask")
       {| method := lit "POST";
          headers := [(lit "Content-Type", lit "application/json")];
          body := lit "{" ++ [34] ++ lit "question" ++ [34] ++ lit ":"
                  ++ [34] ++ lit "hi" ++ [34] ++ lit "}" |}].
Proof.
  apply (valid_input_issues_one_request (sample_page (lit " hi ")) (lit " hi "));
    [reflexivity | reflexivity | discriminate].
Defined.

(** C6.  When the trimmed input is not empty, the request goes out from a
    page whose output area has already been emptied and whose loading
    indicator has already been revealed: the two writes precede the
    request in the trace, and [fetch] is called in the world they left. *)
Theorem page_is_prepared_before_request (w : World) (v : jsstring) :
  page_ready w = true ->
  input_value w = Some v ->
  trim v <> [] ->
  exists before : World,
    askQuestion w
    = (p <- fetch (lit "/ask") (ask_request (trim v));;
       subscribe p handler_closure) before
    /\ output_text before = Some []
    /\ loader_visible before = true
    /\ requests (trace before) = requests (trace w)
    /\ trace (step w Invoke)
       = trace w ++ [SetInnerText id_response [];
                     ClassListRemove id_loader hidden;
                     Fetch (lit "/ask") (ask_request (trim v))].
Proof.
  intros Hp Hv Ht. exists (reveal_loader (show_text [] w)).
  destruct (page_ready_elements w Hp) as [Hr Hl].
  split; [by apply askQuestion_valid|].
  split; [by rewrite output_text_reveal_loader, output_text_show_text|].
  split; [by rewrite loader_visible_reveal_loader; rewrite ?has_element_show_text|].
  split.
  - simpl. rewrite !requests_app. simpl. by rewrite !app_nil_r.
  - simpl. rewrite (askQuestion_issue w v Hp Hv Ht). simpl.
    by rewrite <- !app_assoc.
Qed.

Lemma page_is_prepared_before_request_witness :
  let w := sample_page (lit "hi") in
  exists before : World,
    askQuestion w
    = (p <- fetch (lit "/ask") (ask_request (trim (lit "hi")));;
       subscribe p handler_closure) before
    /\ output_text before = Some []
    /\ loader_visible before = true
    /\ requests (trace before) = requests (trace w)
    /\ trace (step w Invoke)
       = trace w ++ [SetInnerText id_response [];
                     ClassListRemove id_loader hidden;
                     Fetch (lit "/ask") (ask_request (trim (lit "hi")))].
Proof.
  apply (page_is_prepared_before_request (sample_page (lit "hi")) (lit "hi"));
    [reflexivity | reflexivity | discriminate].
Defined.

(** C10.  On the validation path the loading indicator is not touched:
    the element is the same after the handler as before, so a loader that
    was visible stays visible and one that was hidden stays hidden. *)
Theorem blank_input_leaves_loader (w : World) (v : jsstring) :
  input_value w = Some v ->
  forallb is_white_space v = true ->
  document (step w Invoke) !! id_loader = document w !! id_loader
  /\ loader_classes (step w Invoke) = loader_classes w
  /\ loader_visible (step w Invoke) = loader_visible w.
Proof.
  intros Hv Hb. apply trim_blank in Hb.
  assert (H : document (step w Invoke) !! id_loader = document w !! id_loader).
  { apply input_value_elim in Hv as (qe & Hq & Hv).
    simpl. unfold askQuestion, bind, getElementById, get_value, String_trim, ret.
    rewrite Hq.
    destruct (document w !! id_response) eqn:Hr, (document w !! id_loader) eqn:Hl;
      simpl; rewrite Hq; simpl; rewrite Hv, Hb; simpl;
      rewrite ?lookup_alter_ne by discriminate; done. }
  unfold loader_visible, loader_classes. by rewrite H.
Qed.

Lemma blank_input_leaves_loader_witness :
  let w := step (sample_page (lit "hi")) Invoke in
  let w' := step w (UserInput (lit " ")) in
  loader_visible w' = true
  /\ document (step w' Invoke) !! id_loader = document w' !! id_loader
  /\ loader_classes (step w' Invoke) = loader_classes w'
  /\ loader_visible (step w' Invoke) = loader_visible w'.
Proof.
  split; [reflexivity|].
  apply (blank_input_leaves_loader
           (step (step (sample_page (lit "hi")) Invoke) (UserInput (lit " ")))
           (lit " "));
    reflexivity.
Defined.

(** C9.  Neither the handler nor its callbacks write the input: whatever
    the path, the text of the input is the same after as before. *)
Theorem input_is_only_read (w : World) (p : nat) (o : outcome) :
  input_value (step w Invoke) = input_value w
  /\ input_value (step w (Settle p o)) = input_value w.
Proof.
  split; [apply invoke_keeps_input | apply settle_keeps_input].
Qed.

(** C4.  When the request fails, or reading its body as JSON does, the
    chain hides the loading indicator, assigns the fixed error message to
    the output area and hands the error to [console.error]; the error
    appears nowhere else. *)
Theorem failure_shows_fixed_message (w : World) (p : nat) (o : outcome) (e : jserror) :
  consistent w = true ->
  in_flight w p = true ->
  failure_of o = Some e ->
  let w' := step w (Settle p o) in
  loader_hidden w' = true
  /\ output_text w' = Some error_message
  /\ trace w' = trace w ++ [ClassListAdd id_loader hidden;
                            SetInnerText id_response error_message;
                            ConsoleError e]
  /\ console (trace w') = console (trace w) ++ [e].
Proof.
  intros Hc Hin Hf w'. subst w'.
  destruct (failed_settle_page w p o e Hc Hin Hf) as [Hh Ho].
  split; [done|]. split; [done|].
  destruct (step_settle w p o Hc Hin) as (rest & _ & _ & ->).
  unfold settled. rewrite (failure_rendering o e Hf), Hf. simpl.
  rewrite <- !app_assoc. split; [done|].
  by rewrite console_app.
Qed.

Lemma failure_shows_fixed_message_witness :
  let w := step (sample_page (lit "hi")) Invoke in
  let e := SyntaxError (lit "Unexpected token < in JSON") in
  let w' := step w (Settle 0%nat (Fulfilled (mkResponse 200 (ParseFails e)))) in
  loader_hidden w' = true
  /\ output_text w' = Some error_message
  /\ trace w' = trace w ++ [ClassListAdd id_loader hidden;
                            SetInnerText id_response error_message;
                            ConsoleError e]
  /\ console (trace w') = console (trace w) ++ [e].
Proof.
  apply (failure_shows_fixed_message
           (step (sample_page (lit "hi")) Invoke) 0%nat
           (Fulfilled (mkResponse 200
              (ParseFails (SyntaxError (lit "Unexpected token < in JSON")))))
           (SyntaxError (lit "Unexpected token < in JSON")));
    reflexivity.
Defined.

(** C3, as the code has it.  When the request is answered and the body
    parses as a JSON object, the chain hides the loading indicator.
    Whenever the [response] field of the object converts to a string, the
    output area gets that string, the field itself when it is a string,
    and that is all the chain does.  When the conversion throws, the
    [catch] callback runs instead: it hides the loading indicator again,
    puts the error message in the output area and logs what was thrown. *)
Theorem parsed_response_is_shown
  (w : World) (p : nat) (r : Response) (props : list (jsstring * json)) :
  consistent w = true ->
  in_flight w p = true ->
  json_result r = ParsesAs (JObject props) ->
  let w' := step w (Settle p (Fulfilled r)) in
  loader_hidden w' = true
  /\ (forall text, to_DOMString (assoc (lit "response") props) = inr text ->
        output_text w' = Some text
        /\ trace w' = trace w ++ [ClassListAdd id_loader hidden;
                                  SetInnerText id_response text])
  /\ (forall s, assoc (lit "response") props = Some (JString s) ->
        output_text w' = Some s)
  /\ (forall e, to_DOMString (assoc (lit "response") props) = inl e ->
        output_text w' = Some error_message
        /\ trace w' = trace w ++ [ClassListAdd id_loader hidden;
                                  ClassListAdd id_loader hidden;
                                  SetInnerText id_response error_message;
                                  ConsoleError e]).
Proof.
  intros Hc Hin Hr w'. subst w'.
  destruct (step_settle w p (Fulfilled r) Hc Hin) as (rest & _ & _ & ->).
  apply andb_true_iff in Hc as [Hp _].
  destruct (page_ready_elements w Hp) as [Hre Hl].
  split; [by apply loader_hidden_settled|].
  assert (Hren : rendering (Fulfilled r) = to_DOMString (assoc (lit "response") props)).
  { unfold rendering. by rewrite Hr. }
  assert (Hshown : forall text,
             to_DOMString (assoc (lit "response") props) = inr text ->
             output_text (settled (Fulfilled r) (mkWorld (document w) (trace w) rest))
             = Some text
             /\ trace (settled (Fulfilled r) (mkWorld (document w) (trace w) rest))
                = trace w ++ [ClassListAdd id_loader hidden;
                              SetInnerText id_response text]).
  { intros text Ht. rewrite output_text_settled by done.
    unfold shown, settled. rewrite Hren, Ht. split; [done|].
    simpl. by rewrite <- app_assoc. }
  split; [exact Hshown|].
  split; [intros s Hs; apply Hshown; by rewrite Hs|].
  intros e He. rewrite output_text_settled by done.
  unfold shown, settled, failure_of. rewrite Hren, He, Hr. split; [done|].
  simpl. by rewrite <- !app_assoc.
Qed.

Lemma parsed_response_is_shown_witness :
  let r := mkResponse 200 (ParsesAs (JObject [(lit "response", JString (lit "42"))])) in
  let w' := run (sample_page (lit "hi")) [Invoke; Settle 0%nat (Fulfilled r)] in
  loader_hidden w' = true /\ output_text w' = Some (lit "42").
Proof.
  destruct (parsed_response_is_shown
              (step (sample_page (lit "hi")) Invoke) 0%nat
              (mkResponse 200 (ParsesAs (JObject [(lit "response", JString (lit "42"))])))
              [(lit "response", JString (lit "42"))]
              eq_refl eq_refl eq_refl) as (Hh & _ & Hs & _).
  split; [exact Hh | apply Hs; reflexivity].
Defined.

(** C3, as stated, fails: a [response] field that is an object with a
    [toString] property of its own has no string conversion, the
    assignment throws a TypeError, and the output area gets the error
    message while the TypeError goes to the console. *)
Lemma unconvertible_field_shows_error :
  let field := JObject [(lit "toString", JNull)] in
  let r := mkResponse 200 (ParsesAs (JObject [(lit "response", field)])) in
  let w := step (sample_page (lit "hi")) Invoke in
  let w' := step w (Settle 0%nat (Fulfilled r)) in
  consistent w = true
  /\ in_flight w 0%nat = true
  /\ (exists msg, to_DOMString (Some field) = inl (TypeError msg))
  /\ output_text w' = Some error_message
  /\ loader_hidden w' = true
  /\ (exists msg, console (trace w') = [TypeError msg]).
Proof. repeat split; eexists; reflexivity. Qed.

(** C5, as the code has it.  The status of an answer is never looked at:
    two answers that differ only in status leave the same world.  A
    rejected request and an answer whose body is not JSON leave the same
    page, error message shown and loading indicator hidden. *)
Theorem status_is_never_inspected
  (w : World) (p : nat) (st st' : N) (body : json_outcome) (e e' : jserror) :
  consistent w = true ->
  in_flight w p = true ->
  step w (Settle p (Fulfilled (mkResponse st body)))
  = step w (Settle p (Fulfilled (mkResponse st' body)))
  /\ (let lost := step w (Settle p (Rejected e)) in
      let garbled := step w (Settle p (Fulfilled (mkResponse st (ParseFails e')))) in
      document lost = document garbled
      /\ output_text lost = Some error_message
      /\ loader_hidden lost = true).
Proof.
  intros Hc Hin. split; [done|]. intros lost garbled.
  destruct (failed_settle_page w p (Rejected e) e Hc Hin eq_refl) as [Hh Ho].
  split; [|by split].
  subst lost garbled.
  destruct (step_settle w p (Rejected e) Hc Hin) as (rest & Ht & _ & ->).
  simpl. by rewrite Ht.
Qed.

Lemma status_is_never_inspected_witness :
  let w := step (sample_page (lit "hi")) Invoke in
  let body := ParsesAs (JObject [(lit "response", JString (lit "busy"))]) in
  let e := TypeError (lit "Failed to fetch") in
  let e' := SyntaxError (lit "Unexpected token < in JSON") in
  step w (Settle 0%nat (Fulfilled (mkResponse 200 body)))
  = step w (Settle 0%nat (Fulfilled (mkResponse 503 body)))
  /\ (let lost := step w (Settle 0%nat (Rejected e)) in
      let garbled := step w (Settle 0%nat (Fulfilled (mkResponse 200 (ParseFails e')))) in
      document lost = document garbled
      /\ output_text lost = Some error_message
      /\ loader_hidden lost = true).
Proof.
  apply (status_is_never_inspected
           (step (sample_page (lit "hi")) Invoke) 0%nat 200 503
           (ParsesAs (JObject [(lit "response", JString (lit "busy"))]))
           (TypeError (lit "Failed to fetch"))
           (SyntaxError (lit "Unexpected token < in JSON")));
    reflexivity.
Defined.

(** C5, as stated, fails: an answer with status 500 whose body is JSON is
    not treated as a failure.  Where a lost connection shows the error
    message, it shows what its body gives, and logs nothing. *)
Lemma error_status_is_not_a_failure :
  let w := step (sample_page (lit "hi")) Invoke in
  let lost := step w (Settle 0%nat (Rejected (TypeError (lit "Failed to fetch")))) in
  let refused :=
    step w (Settle 0%nat
              (Fulfilled (mkResponse 500
                 (ParsesAs (JObject [(lit "error", JString (lit "Internal Server Error"))])))))
  in
  output_text lost = Some error_message
  /\ output_text refused = Some (lit "undefined")
  /\ output_text refused <> output_text lost
  /\ console (trace refused) = [].
Proof. repeat split. discriminate. Qed.

(** C7.  The same question submitted twice, each submission awaited to
    its end and answered the same way, shows the same text both times;
    the question is still in the input for the second submission. *)
Theorem resubmission_shows_same_text (w : World) (v : jsstring) (o : outcome) :
  consistent w = true ->
  input_value w = Some v ->
  trim v <> [] ->
  input_value (submit o w) = Some v
  /\ output_text (submit o w) = Some (shown o)
  /\ output_text (submit o (submit o w)) = output_text (submit o w).
Proof.
  intros Hc Hv Ht.
  assert (Hsubmit : forall w0, consistent w0 = true -> input_value w0 = Some v ->
            consistent (submit o w0) = true
            /\ input_value (submit o w0) = Some v
            /\ output_text (submit o w0) = Some (shown o)).
  { clear w Hc Hv. intros w Hc Hv. unfold submit.
    split; [by apply consistent_settle, consistent_invoke|].
    split; [by rewrite settle_keeps_input, invoke_keeps_input|].
    pose proof (consistent_invoke w Hc) as Hc1.
    assert (Hin : in_flight (step w Invoke) (next_promise w) = true).
    { apply andb_true_iff in Hc as [Hp _]. simpl.
      rewrite (askQuestion_issue w v Hp Hv Ht). unfold in_flight. cbn [snd issue pending].
      apply bool_decide_eq_true. rewrite List.map_app, next_promise_show_loading.
      apply elem_of_app. right. by apply list_elem_of_singleton. }
    destruct (step_settle (step w Invoke) (next_promise w) o Hc1 Hin) as (rest & _ & _ & ->).
    apply output_text_settled.
    apply andb_true_iff in Hc1 as [Hp1 _].
    by apply page_ready_elements in Hp1 as [? _]. }
  destruct (Hsubmit w Hc Hv) as (Hc1 & Hv1 & Ho1).
  destruct (Hsubmit (submit o w) Hc1 Hv1) as (_ & _ & Ho2).
  split; [done|]. split; [done|]. by rewrite Ho1, Ho2.
Qed.

Lemma resubmission_shows_same_text_witness :
  let o := Fulfilled (mkResponse 200 (ParsesAs (JObject [(lit "response", JString (lit "42"))]))) in
  let w := sample_page (lit " hi ") in
  input_value (submit o w) = Some (lit " hi ")
  /\ output_text (submit o w) = Some (shown o)
  /\ output_text (submit o (submit o w)) = output_text (submit o w).
Proof.
  apply (resubmission_shows_same_text (sample_page (lit " hi ")) (lit " hi "));
    [reflexivity | reflexivity | discriminate].
Defined.

(** C8, as the code has it.  Nothing but a settled request hides the
    loading indicator: once the handler has revealed it, it stays visible
    through any number of further clicks and edits, for as long as no
    request settles. *)
Theorem loader_stays_while_nothing_settles
  (w : World) (v : jsstring) (evs : list event) :
  page_ready w = true ->
  input_value w = Some v ->
  trim v <> [] ->
  forallb (fun ev => negb (is_settle ev)) evs = true ->
  loader_visible (run (step w Invoke) evs) = true.
Proof.
  intros Hp Hv Ht Hevs.
  assert (H : page_ready (step w Invoke) = true /\ loader_visible (step w Invoke) = true).
  { simpl. rewrite (askQuestion_issue w v Hp Hv Ht). cbn [snd].
    change (page_ready (issue ?q ?x)) with (page_ready x).
    change (loader_visible (issue ?q ?x)) with (loader_visible x).
    rewrite page_ready_reveal_loader, page_ready_show_text.
    split; [done|]. apply loader_visible_reveal_loader.
    rewrite has_element_show_text. by apply page_ready_elements. }
  destruct H as [Hp1 Hl1]. by apply visible_while_unsettled.
Qed.

Lemma loader_stays_while_nothing_settles_witness :
  loader_visible
    (run (step (sample_page (lit "hi")) Invoke)
         [UserInput (lit "  "); Invoke; UserInput (lit "again"); Invoke])
  = true.
Proof.
  apply (loader_stays_while_nothing_settles (sample_page (lit "hi")) (lit "hi"));
    [reflexivity | reflexivity | discriminate | reflexivity].
Defined.

(** C8, as stated, fails: with two requests in flight, the first to
    settle hides the loading indicator while the second, for which it was
    revealed too, has neither succeeded nor failed. *)
Lemma loader_hidden_while_request_in_flight :
  let answer := Fulfilled (mkResponse 200 (ParsesAs (JObject [(lit "response", JString (lit "42"))]))) in
  let asked_twice := run (sample_page (lit "hi")) [Invoke; Invoke] in
  let w := step asked_twice (Settle 0%nat answer) in
  loader_visible asked_twice = true
  /\ in_flight asked_twice 1%nat = true
  /\ in_flight w 1%nat = true
  /\ loader_visible w = false.
Proof. repeat split. Qed.

(** * Further properties of the handler *)

(** ** Every way through lines 1 to 21 *)

Lemma askQuestion_run (w : World) :
  askQuestion w =
    match document w !! id_question with
    | None => (Throw (TypeError (lit "Cannot read properties of null")), w)
    | Some qe =>
        match value qe with
        | None => (Throw (TypeError (lit "Cannot read properties of undefined")), w)
        | Some v =>
            if has_element w id_response then
              match trim v with
              | [] => (Normal tt, show_text validation_message w)
              | _ :: _ =>
                  if has_element w id_loader
                  then (Normal tt, issue (trim v) (reveal_loader (show_text [] w)))
                  else (Throw (TypeError (lit "Cannot read properties of null")),
                        show_text [] w)
              end
            else (Throw (TypeError (lit "Cannot read properties of null")), w)
        end
    end.
Proof.
  unfold askQuestion, bind, getElementById, get_value, String_trim, ret, has_element.
  destruct (document w !! id_question) as [qe|] eqn:Hq.
  - destruct (document w !! id_response) as [re|] eqn:Hr;
      destruct (document w !! id_loader) as [le|] eqn:Hl;
      simpl; rewrite Hq; simpl;
      destruct (value qe) as [v|]; simpl; try reflexivity;
      destruct (trim v); reflexivity.
  - destruct (document w !! id_response), (document w !! id_loader); reflexivity.
Qed.

(** X1.  The handler returns normally exactly when the input has a
    string value, the output area exists and, unless the trimmed input is
    empty, the loading indicator exists.  In every other case it throws a
    TypeError. *)
Theorem handler_returns_iff (w : World) :
  (fst (askQuestion w) = Normal tt
   <-> exists v, input_value w = Some v
                 /\ has_element w id_response = true
                 /\ (trim v = [] \/ has_element w id_loader = true))
  /\ (fst (askQuestion w) = Normal tt
      \/ exists msg, fst (askQuestion w) = Throw (TypeError msg)).
Proof.
  rewrite askQuestion_run. unfold input_value.
  destruct (document w !! id_question) as [qe|]; simpl.
  2: { split; [|right; by eexists]. split; [discriminate | by intros (v & ? & _)]. }
  destruct (value qe) as [v|]; simpl.
  2: { split; [|right; by eexists]. split; [discriminate | by intros (v & ? & _)]. }
  destruct (has_element w id_response); simpl.
  2: { split; [|right; by eexists]. split; [discriminate | by intros (v' & _ & ? & _)]. }
  destruct (trim v) as [|c q] eqn:Ht.
  - split; [|by left]. split; [|done]. intros _. exists v. rewrite Ht. auto.
  - destruct (has_element w id_loader); simpl.
    + split; [|by left]. split; [|done]. intros _. exists v. auto.
    + split; [|right; by eexists]. split; [discriminate|].
      intros (v' & [= <-] & _ & [H|H]); [by rewrite Ht in H | done].
Qed.

(** X2.  A handler that throws has sent nothing and left no callback
    waiting, and has not touched the loading indicator. *)
Theorem throwing_handler_sends_nothing (w : World) (e : jserror) :
  fst (askQuestion w) = Throw e ->
  sent (step w Invoke) = sent w
  /\ pending (step w Invoke) = pending w
  /\ document (step w Invoke) !! id_loader = document w !! id_loader.
Proof.
  simpl. rewrite askQuestion_run.
  destruct (document w !! id_question) as [qe|]; [|done].
  destruct (value qe) as [v|]; [|done].
  destruct (has_element w id_response); [|done].
  destruct (trim v) as [|c q]; [discriminate|].
  destruct (has_element w id_loader); [discriminate|].
  intros _. cbn [snd]. unfold sent. simpl trace.
  rewrite requests_app, loader_show_text. simpl. by rewrite app_nil_r.
Qed.

Lemma throwing_handler_sends_nothing_witness :
  let w := page_without_loader (lit "hi") in
  fst (askQuestion w) = Throw (TypeError (lit "Cannot read properties of null"))
  /\ sent (step w Invoke) = sent w
  /\ pending (step w Invoke) = pending w
  /\ document (step w Invoke) !! id_loader = document w !! id_loader.
Proof.
  split; [reflexivity|].
  apply (throwing_handler_sends_nothing (page_without_loader (lit "hi"))
           (TypeError (lit "Cannot read properties of null"))).
  reflexivity.
Defined.

(** X3.  On a page without the loading indicator, a question that is not
    blank empties the output area and then throws a TypeError: the old
    text is gone and no request goes out. *)
Theorem missing_loader_clears_output (w : World) (v : jsstring) :
  input_value w = Some v ->
  trim v <> [] ->
  has_element w id_response = true ->
  has_element w id_loader = false ->
  (exists msg, fst (askQuestion w) = Throw (TypeError msg))
  /\ output_text (step w Invoke) = Some []
  /\ trace (step w Invoke) = trace w ++ [SetInnerText id_response []].
Proof.
  intros (qe & Hq & Hv)%input_value_elim Ht Hr Hl.
  simpl. rewrite askQuestion_run, Hq, Hv, Hr, Hl.
  destruct (trim v); [done|]. cbn [fst snd].
  split; [by eexists|]. split; [by apply output_text_show_text | done].
Qed.

Lemma missing_loader_clears_output_witness :
  let w := page_without_loader (lit "hi") in
  output_text w = Some (lit "old")
  /\ (exists msg, fst (askQuestion w) = Throw (TypeError msg))
  /\ output_text (step w Invoke) = Some []
  /\ trace (step w Invoke) = trace w ++ [SetInnerText id_response []].
Proof.
  split; [reflexivity|].
  apply (missing_loader_clears_output (page_without_loader (lit "hi")) (lit "hi"));
    [reflexivity | discriminate | reflexivity | reflexivity].
Defined.

(** X4.  Without a form control [question], or without the output area,
    a click changes nothing at all. *)
Theorem missing_input_or_output_changes_nothing (w : World) :
  input_value w = None \/ has_element w id_response = false ->
  step w Invoke = w.
Proof.
  simpl. rewrite askQuestion_run. unfold input_value.
  destruct (document w !! id_question) as [qe|]; simpl; [|done].
  destruct (value qe) as [v|]; simpl; [|done].
  intros [?|Hr]; [done|]. by rewrite Hr.
Qed.

Lemma missing_input_or_output_changes_nothing_witness :
  let w := mkWorld (<[id_question := mkElement (Some (lit "hi")) [] []]> ∅) [] [] in
  step w Invoke = w.
Proof.
  apply (missing_input_or_output_changes_nothing
           (mkWorld (<[id_question := mkElement (Some (lit "hi")) [] []]> ∅) [] [])).
  right. reflexivity.
Defined.

(** ** Every way through lines 22 to 31 *)

Lemma settle_success (w : World) p o text :
  consistent w = true -> in_flight w p = true -> rendering o = inr text ->
  loader_hidden (step w (Settle p o)) = true
  /\ output_text (step w (Settle p o)) = Some text
  /\ trace (step w (Settle p o))
     = trace w ++ [ClassListAdd id_loader hidden; SetInnerText id_response text].
Proof.
  intros Hc Hin Hr.
  destruct (step_settle w p o Hc Hin) as (rest & _ & _ & ->).
  apply andb_true_iff in Hc as [Hp _].
  destruct (page_ready_elements w Hp) as [Hre Hl].
  split; [by apply loader_hidden_settled|].
  split; [rewrite output_text_settled by done; unfold shown; by rewrite Hr|].
  unfold settled. rewrite Hr. simpl. by rewrite <- app_assoc.
Qed.

Lemma settle_error (w : World) p o e :
  consistent w = true -> in_flight w p = true -> rendering o = inl e ->
  loader_hidden (step w (Settle p o)) = true
  /\ output_text (step w (Settle p o)) = Some error_message
  /\ console (trace (step w (Settle p o))) = console (trace w) ++ [e].
Proof.
  intros Hc Hin Hr.
  destruct (step_settle w p o Hc Hin) as (rest & _ & _ & ->).
  apply andb_true_iff in Hc as [Hp _].
  destruct (page_ready_elements w Hp) as [Hre Hl].
  split; [by apply loader_hidden_settled|].
  split; [rewrite output_text_settled by done; unfold shown; by rewrite Hr|].
  unfold settled. rewrite Hr.
  destruct (failure_of o); cbn -[console]; rewrite !console_app; simpl;
    by rewrite !app_nil_r.
Qed.

Lemma settle_output (w : World) p o :
  consistent w = true -> in_flight w p = true ->
  output_text (step w (Settle p o)) = Some (shown o).
Proof.
  intros Hc Hin. unfold shown.
  destruct (rendering o) as [e|text] eqn:Hr.
  - by destruct (settle_error w p o e Hc Hin Hr) as (_ & ? & _).
  - by destruct (settle_success w p o text Hc Hin Hr) as (_ & ? & _).
Qed.

(** X5.  However a request settles, its chain hides the loading
    indicator and ends in one of two ways: a text from the answer is
    shown and nothing is logged, or the error message is shown and exactly
    one error is logged. *)
Theorem every_outcome_hides_loader (w : World) (p : nat) (o : outcome) :
  consistent w = true ->
  in_flight w p = true ->
  let w' := step w (Settle p o) in
  loader_hidden w' = true
  /\ ((exists text, output_text w' = Some text
                    /\ console (trace w') = console (trace w))
      \/ (exists e, output_text w' = Some error_message
                    /\ console (trace w') = console (trace w) ++ [e])).
Proof.
  intros Hc Hin w'. subst w'.
  destruct (rendering o) as [e|text] eqn:Hr.
  - destruct (settle_error w p o e Hc Hin Hr) as (Hh & Ho & Hlog).
    split; [done|]. right. by exists e.
  - destruct (settle_success w p o text Hc Hin Hr) as (Hh & Ho & Htr).
    split; [done|]. left. exists text. split; [done|].
    rewrite Htr, console_app. simpl. by rewrite app_nil_r.
Qed.

Lemma every_outcome_hides_loader_witness :
  let w := step (sample_page (lit "hi")) Invoke in
  let w' := step w (Settle 0%nat (Fulfilled (mkResponse 204 (ParsesAs (JArray []))))) in
  loader_hidden w' = true
  /\ ((exists text, output_text w' = Some text
                    /\ console (trace w') = console (trace w))
      \/ (exists e, output_text w' = Some error_message
                    /\ console (trace w') = console (trace w) ++ [e])).
Proof.
  apply (every_outcome_hides_loader (step (sample_page (lit "hi")) Invoke) 0%nat
           (Fulfilled (mkResponse 204 (ParsesAs (JArray [])))));
    reflexivity.
Defined.

(** X6.  A body that is JSON but carries no [response] (an object
    without the key, or a value that is neither an object nor [null])
    puts the text "undefined" on the page, and nothing is logged. *)
Theorem body_without_response_shows_undefined
  (w : World) (p : nat) (r : Response) (data : json) :
  consistent w = true ->
  in_flight w p = true ->
  json_result r = ParsesAs data ->
  data <> JNull ->
  (forall props, data = JObject props -> assoc (lit "response") props = None) ->
  let w' := step w (Settle p (Fulfilled r)) in
  output_text w' = Some (lit "undefined")
  /\ loader_hidden w' = true
  /\ console (trace w') = console (trace w).
Proof.
  intros Hc Hin Hr Hnull Hobj w'. subst w'.
  assert (Hren : rendering (Fulfilled r) = inr (lit "undefined")).
  { unfold rendering. rewrite Hr.
    destruct data as [|b|n|s|items|props]; try done.
    simpl. by rewrite (Hobj props eq_refl). }
  destruct (settle_success w p _ _ Hc Hin Hren) as (Hh & Ho & Htr).
  split; [done|]. split; [done|].
  rewrite Htr, console_app. simpl. by rewrite app_nil_r.
Qed.

Lemma body_without_response_shows_undefined_witness :
  let w := step (sample_page (lit "hi")) Invoke in
  let r := mkResponse 200 (ParsesAs (JObject [(lit "answer", JString (lit "42"))])) in
  let w' := step w (Settle 0%nat (Fulfilled r)) in
  output_text w' = Some (lit "undefined")
  /\ loader_hidden w' = true
  /\ console (trace w') = console (trace w).
Proof.
  apply (body_without_response_shows_undefined
           (step (sample_page (lit "hi")) Invoke) 0%nat
           (mkResponse 200 (ParsesAs (JObject [(lit "answer", JString (lit "42"))])))
           (JObject [(lit "answer", JString (lit "42"))]));
    [reflexivity | reflexivity | reflexivity | discriminate |].
  intros props [= <-]. reflexivity.
Defined.

(** X7.  A body that is the JSON value [null] is a failure of its own
    kind: the second callback hides the loading indicator and throws a
    TypeError on [data.response], and the [catch] callback hides it
    again, shows the error message and logs that TypeError. *)
Theorem null_body_is_a_failure (w : World) (p : nat) (r : Response) :
  consistent w = true ->
  in_flight w p = true ->
  json_result r = ParsesAs JNull ->
  let w' := step w (Settle p (Fulfilled r)) in
  output_text w' = Some error_message
  /\ loader_hidden w' = true
  /\ exists msg,
       trace w'
       = trace w ++ [ClassListAdd id_loader hidden;
                     ClassListAdd id_loader hidden;
                     SetInnerText id_response error_message;
                     ConsoleError (TypeError msg)].
Proof.
  intros Hc Hin Hr w'. subst w'.
  assert (Hren : rendering (Fulfilled r)
                 = inl (TypeError (lit "Cannot read properties of null"))).
  { unfold rendering. by rewrite Hr. }
  destruct (settle_error w p _ _ Hc Hin Hren) as (Hh & Ho & _).
  split; [done|]. split; [done|].
  destruct (step_settle w p (Fulfilled r) Hc Hin) as (rest & _ & _ & ->).
  unfold settled. rewrite Hren. unfold failure_of. rewrite Hr. simpl.
  eexists. by rewrite <- !app_assoc.
Qed.

Lemma null_body_is_a_failure_witness :
  let w := step (sample_page (lit "hi")) Invoke in
  let w' := step w (Settle 0%nat (Fulfilled (mkResponse 200 (ParsesAs JNull)))) in
  output_text w' = Some error_message
  /\ loader_hidden w' = true
  /\ exists msg,
       trace w'
       = trace w ++ [ClassListAdd id_loader hidden;
                     ClassListAdd id_loader hidden;
                     SetInnerText id_response error_message;
                     ConsoleError (TypeError msg)].
Proof.
  apply (null_body_is_a_failure (step (sample_page (lit "hi")) Invoke) 0%nat
           (mkResponse 200 (ParsesAs JNull)));
    reflexivity.
Defined.

(** X8.  A [response] field that is [null] empties the output area: the
    page shows nothing, and nothing is logged. *)
Theorem null_field_shows_nothing
  (w : World) (p : nat) (r : Response) (props : list (jsstring * json)) :
  consistent w = true ->
  in_flight w p = true ->
  json_result r = ParsesAs (JObject props) ->
  assoc (lit "response") props = Some JNull ->
  let w' := step w (Settle p (Fulfilled r)) in
  output_text w' = Some []
  /\ loader_hidden w' = true
  /\ console (trace w') = console (trace w).
Proof.
  intros Hc Hin Hr Hf w'. subst w'.
  assert (Hren : rendering (Fulfilled r) = inr []).
  { unfold rendering. rewrite Hr. simpl. by rewrite Hf. }
  destruct (settle_success w p _ _ Hc Hin Hren) as (Hh & Ho & Htr).
  split; [done|]. split; [done|].
  rewrite Htr, console_app. simpl. by rewrite app_nil_r.
Qed.

Lemma null_field_shows_nothing_witness :
  let w := step (sample_page (lit "hi")) Invoke in
  let r := mkResponse 200 (ParsesAs (JObject [(lit "response", JNull)])) in
  let w' := step w (Settle 0%nat (Fulfilled r)) in
  output_text w' = Some []
  /\ loader_hidden w' = true
  /\ console (trace w') = console (trace w).
Proof.
  apply (null_field_shows_nothing (step (sample_page (lit "hi")) Invoke) 0%nat
           (mkResponse 200 (ParsesAs (JObject [(lit "response", JNull)])))
           [(lit "response", JNull)]);
    reflexivity.
Defined.

(** ** What the callbacks never do *)

Section Preserves.
Context {A B T : Type} (obs : World -> T).

Lemma preserves_ret (a : A) : preserves obs (ret a).
Proof. by intros w. Qed.

Lemma preserves_throw e : preserves obs (@throw A e).
Proof. by intros w. Qed.

Lemma preserves_lift (r : jserror + A) : preserves obs (lift r).
Proof. by destruct r; intros w. Qed.

Lemma preserves_bind (c : JS A) (k : A -> JS B) :
  preserves obs c -> (forall a, preserves obs (k a)) -> preserves obs (bind c k).
Proof.
  intros Hc Hk w. unfold bind. specialize (Hc w).
  destruct (c w) as [[a|e] w1]; simpl in *; [|done].
  by rewrite Hk.
Qed.

Lemma preserves_catch (c : JS A) (h : jserror -> JS A) :
  preserves obs c -> (forall e, preserves obs (h e)) -> preserves obs (catch c h).
Proof.
  intros Hc Hh w. unfold catch. specialize (Hc w).
  destruct (c w) as [[a|e] w1]; simpl in *; [done|].
  by rewrite Hh.
Qed.
End Preserves.

(** The callbacks of any chain keep an observation that no page write and
    no console entry can change. *)
Lemma preserves_on_settled {T} (obs : World -> T) cl o :
  (forall el text, preserves obs (set_innerText el text)) ->
  (forall el token, preserves obs (classList_add el token)) ->
  (forall e, preserves obs (console_error e)) ->
  preserves obs (on_settled cl o).
Proof.
  intros Htext Hadd Hlog.
  unfold on_settled, on_data, on_error, on_response.
  apply preserves_catch.
  - apply preserves_bind.
    + destruct o as [r|e]; [destruct (json_result r)|];
        auto using preserves_ret, preserves_throw.
    + intros data.
      apply preserves_bind; [apply Hadd | intros _].
      apply preserves_bind; [apply preserves_lift | intros v].
      apply preserves_bind; [apply preserves_lift | intros text].
      apply Htext.
  - intros e.
    apply preserves_bind; [apply Hadd | intros _].
    apply preserves_bind; [apply Htext | intros _].
    apply Hlog.
Qed.

Lemma sent_emit e (w : World) : is_fetch e = false -> sent (emit e w) = sent w.
Proof.
  intros He. unfold sent. simpl. rewrite requests_app. simpl. rewrite He.
  apply app_nil_r.
Qed.

Lemma on_settled_sends_nothing cl o : preserves sent (on_settled cl o).
Proof.
  apply preserves_on_settled.
  - intros [r|] text w; [|done]. cbn [snd set_innerText]. by rewrite sent_emit.
  - intros [r|] token w; [|done]. cbn [snd classList_add]. by rewrite sent_emit.
  - intros e w. cbn [snd console_error]. by rewrite sent_emit.
Qed.

Lemma on_settled_subscribes_nothing cl o : preserves pending (on_settled cl o).
Proof. apply preserves_on_settled; by intros [r|] ? w || intros e w. Qed.

Lemma take_pending_length p (l : list (nat * closure)) cl rest :
  take_pending p l = Some (cl, rest) -> length l = S (length rest).
Proof.
  revert cl rest. induction l as [|[q c] l IH]; intros cl rest; simpl; [done|].
  destruct (decide (p = q)); [by intros [= _ ->]|].
  destruct (take_pending p l) as [[c' rest']|] eqn:Ht; [|done].
  intros [= _ <-]. simpl. f_equal. by apply (IH c').
Qed.

(** X9.  A settled request is never retried: whatever the outcome and
    whatever its callbacks captured, the chain sends no request and leaves
    no new callback waiting. *)
Theorem settling_sends_nothing (w : World) (p : nat) (o : outcome) :
  sent (step w (Settle p o)) = sent w
  /\ (length (pending (step w (Settle p o))) <= length (pending w))%nat.
Proof.
  simpl. destruct (take_pending p (pending w)) as [[cl rest]|] eqn:Ht; [|done].
  rewrite on_settled_sends_nothing, on_settled_subscribes_nothing. simpl.
  split; [done|]. rewrite (take_pending_length _ _ _ _ Ht). lia.
Qed.

(** ** Two requests in flight *)

Lemma take_pending_other p q (l : list (nat * closure)) cl rest :
  take_pending p l = Some (cl, rest) -> q <> p ->
  q ∈ List.map fst l -> q ∈ List.map fst rest.
Proof.
  revert cl rest. induction l as [|[r c] l IH]; intros cl rest; simpl; [done|].
  destruct (decide (p = r)) as [->|Hne].
  - intros [= _ <-] Hq [?|?]%elem_of_cons; done.
  - destruct (take_pending p l) as [[c' rest']|] eqn:Ht; [|done].
    intros [= _ <-] Hq [->|Hin]%elem_of_cons; simpl.
    + apply elem_of_cons. by left.
    + apply elem_of_cons. right. by apply (IH c').
Qed.

Lemma in_flight_after_settle (w : World) p q o :
  consistent w = true -> in_flight w p = true -> in_flight w q = true -> q <> p ->
  in_flight (step w (Settle p o)) q = true.
Proof.
  intros Hc Hp Hq Hne.
  destruct (step_settle w p o Hc Hp) as (rest & Ht & _ & ->).
  unfold in_flight in *. rewrite pending_settled. simpl.
  apply bool_decide_eq_true. apply bool_decide_eq_true in Hq.
  by apply (take_pending_other p q (pending w) handler_closure).
Qed.

(** X10.  With two requests in flight, the page ends up showing what the
    one that settles last puts there, as if the earlier one had never
    settled; the loading indicator is hidden. *)
Theorem last_settled_wins (w : World) (p q : nat) (first last : outcome) :
  consistent w = true ->
  in_flight w p = true ->
  in_flight w q = true ->
  q <> p ->
  output_text (run w [Settle p first; Settle q last])
  = output_text (step w (Settle q last))
  /\ loader_hidden (run w [Settle p first; Settle q last]) = true.
Proof.
  intros Hc Hp Hq Hne.
  change (run w [Settle p first; Settle q last])
    with (step (step w (Settle p first)) (Settle q last)).
  pose proof (consistent_settle w p first Hc) as Hc1.
  pose proof (in_flight_after_settle w p q first Hc Hp Hq Hne) as Hq1.
  split.
  - by rewrite (settle_output _ q last Hc1 Hq1), (settle_output w q last Hc Hq).
  - destruct (step_settle _ q last Hc1 Hq1) as (rest & _ & _ & ->).
    apply loader_hidden_settled.
    apply andb_true_iff in Hc1 as [Hr _].
    by apply page_ready_elements in Hr as [_ ?].
Qed.

Lemma last_settled_wins_witness :
  let w := run (sample_page (lit "hi")) [Invoke; Invoke] in
  let slow := Fulfilled (mkResponse 200 (ParsesAs (JObject [(lit "response", JString (lit "slow"))]))) in
  let fast := Rejected (TypeError (lit "Failed to fetch")) in
  output_text (run w [Settle 1%nat fast; Settle 0%nat slow])
  = output_text (step w (Settle 0%nat slow))
  /\ loader_hidden (run w [Settle 1%nat fast; Settle 0%nat slow]) = true.
Proof.
  apply (last_settled_wins (run (sample_page (lit "hi")) [Invoke; Invoke]) 1%nat 0%nat);
    [reflexivity | reflexivity | reflexivity | discriminate].
Defined.

(** ** What a click and a settlement leave alone

    The page is the one the handler is written for: the input and the
    loading indicator sit outside the output area, whose content an
    assignment to its text replaces. *)

(** An observation of the document that none of the three page writes
    changes is the same after a click or a settlement as before. *)
Lemma moves_preserve {T} (obs : World -> T) :
  (forall t p w, obs (mkWorld (document w) t p) = obs w) ->
  (forall text w, obs (show_text text w) = obs w) ->
  (forall w, obs (reveal_loader w) = obs w) ->
  (forall w, obs (hide_loader w) = obs w) ->
  forall w p o, consistent w = true ->
    obs (step w Invoke) = obs w /\ obs (step w (Settle p o)) = obs w.
Proof.
  intros Hdoc Htext Hreveal Hhide w p o Hc. split.
  - apply andb_true_iff in Hc as [Hp _].
    destruct (input_value w) as [v|] eqn:Hv;
      [|by unfold page_ready in Hp; rewrite Hv in Hp].
    simpl. destruct (trim v) as [|c q] eqn:Ht.
    + rewrite (askQuestion_blank w v Hp Hv Ht). apply Htext.
    + rewrite (askQuestion_issue w v Hp Hv) by by rewrite Ht.
      cbn [snd]. unfold issue. by rewrite Hdoc, Hreveal, Htext.
  - destruct (in_flight w p) eqn:Hin.
    + destruct (step_settle w p o Hc Hin) as (rest & _ & _ & ->).
      unfold settled.
      destruct (rendering o); [destruct (failure_of o)|].
      * unfold emit at 1. by rewrite Hdoc, Htext, Hhide, Hdoc.
      * unfold emit at 1. by rewrite Hdoc, Htext, !Hhide, Hdoc.
      * by rewrite Htext, Hhide, Hdoc.
    + apply bool_decide_eq_false in Hin. simpl.
      by rewrite (take_pending_none p (pending w) Hin).
Qed.

(** X11.  A click and a settlement leave the input element wholly as it
    was: not only its value but its text and its class tokens. *)
Theorem question_element_untouched (w : World) (p : nat) (o : outcome) :
  consistent w = true ->
  document (step w Invoke) !! id_question = document w !! id_question
  /\ document (step w (Settle p o)) !! id_question = document w !! id_question.
Proof.
  intros Hc.
  apply (moves_preserve (fun w => document w !! id_question)); [done| | | |done].
  - intros text w0. rewrite lookup_show_text. by case_decide.
  - intros w0. rewrite lookup_reveal_loader. by case_decide.
  - intros w0. rewrite lookup_hide_loader. by case_decide.
Qed.

Lemma question_element_untouched_witness :
  let w := step (styled_page (lit "hi")) Invoke in
  let o := Rejected (TypeError (lit "Failed to fetch")) in
  document (step w Invoke) !! id_question = document w !! id_question
  /\ document (step w (Settle 0%nat o)) !! id_question = document w !! id_question.
Proof.
  apply (question_element_untouched (step (styled_page (lit "hi")) Invoke) 0%nat
           (Rejected (TypeError (lit "Failed to fetch"))));
    reflexivity.
Defined.

Lemma remove_token_idem token (l : list jsstring) :
  remove_token token (remove_token token l) = remove_token token l.
Proof.
  unfold remove_token. induction l as [|t l IH]; simpl; [done|].
  destruct (negb (bool_decide (t = token))) eqn:E; simpl; [|done].
  by rewrite E, IH.
Qed.

Lemma remove_token_app token (l k : list jsstring) :
  remove_token token (l ++ k) = remove_token token l ++ remove_token token k.
Proof. apply List.filter_app. Qed.

Lemma remove_add_token token (l : list jsstring) :
  remove_token token (add_token token l) = remove_token token l.
Proof.
  unfold add_token. destruct (bool_decide (token ∈ l)); [done|].
  rewrite remove_token_app. unfold remove_token at 2. simpl.
  rewrite bool_decide_eq_true_2 by done. simpl. apply app_nil_r.
Qed.

(** X12.  Of the loading indicator, a click and a settlement change the
    token [hidden] and nothing else: its other class tokens, in their
    order, and its text are the same afterwards. *)
Theorem loader_keeps_other_tokens (w : World) (p : nat) (o : outcome) :
  consistent w = true ->
  let rest_of (w : World) :=
    (fun e => (remove_token hidden (classList e), innerText e, value e))
      <$> document w !! id_loader in
  rest_of (step w Invoke) = rest_of w
  /\ rest_of (step w (Settle p o)) = rest_of w.
Proof.
  intros Hc rest_of.
  apply (moves_preserve rest_of); subst rest_of; cbv beta; [done| | | |done].
  - intros text w0. by rewrite loader_show_text.
  - intros w0. rewrite lookup_reveal_loader. case_decide; [|done].
    destruct (document w0 !! id_loader); simpl; [|done].
    by rewrite remove_token_idem.
  - intros w0. rewrite lookup_hide_loader. case_decide; [|done].
    destruct (document w0 !! id_loader); simpl; [|done].
    by rewrite remove_add_token.
Qed.

Lemma loader_keeps_other_tokens_witness :
  let w := step (styled_page (lit "hi")) Invoke in
  let o := Rejected (TypeError (lit "Failed to fetch")) in
  let rest_of (w : World) :=
    (fun e => (remove_token hidden (classList e), innerText e, value e))
      <$> document w !! id_loader in
  rest_of (step w Invoke) = rest_of w
  /\ rest_of (step w (Settle 0%nat o)) = rest_of w.
Proof.
  apply (loader_keeps_other_tokens (step (styled_page (lit "hi")) Invoke) 0%nat
           (Rejected (TypeError (lit "Failed to fetch"))));
    reflexivity.
Defined.

Example styled_loader_ex :
  let w := step (styled_page (lit "hi")) Invoke in
  let w' := step w (Settle 0%nat (Rejected (TypeError (lit "Failed to fetch")))) in
  loader_classes w = Some [lit "spinner"; lit "big"]
  /\ loader_classes w' = Some [lit "spinner"; lit "big"; hidden].
Proof. split; reflexivity. Qed.



(** ** Clicks in a row *)

Lemma invoke_valid (w : World) v :
  page_ready w = true -> input_value w = Some v -> trim v <> [] ->
  page_ready (step w Invoke) = true
  /\ input_value (step w Invoke) = Some v
  /\ sent (step w Invoke) = sent w ++ [Fetch (lit "/ask") (ask_request (trim v))]
  /\ length (pending (step w Invoke)) = S (length (pending w)).
Proof.
  intros Hp Hv Ht.
  split; [|split; [by rewrite invoke_keeps_input|]].
  - simpl. rewrite (askQuestion_issue w v Hp Hv Ht). cbn [snd].
    change (page_ready (issue ?q ?x)) with (page_ready x).
    by rewrite page_ready_reveal_loader, page_ready_show_text.
  - simpl. rewrite (askQuestion_issue w v Hp Hv Ht). cbn [snd]. unfold sent.
    split.
    + simpl. rewrite !requests_app. simpl. by rewrite !app_nil_r.
    + simpl. rewrite length_app. simpl. lia.
Qed.

(** X14.  Clicks are neither merged nor dropped: [n] clicks in a row on
    the same question send [n] equal requests and leave [n] more
    callback chains waiting. *)
Theorem clicks_are_not_merged (n : nat) (w : World) (v : jsstring) :
  page_ready w = true ->
  input_value w = Some v ->
  trim v <> [] ->
  sent (run w (replicate n Invoke))
  = sent w ++ replicate n (Fetch (lit "/ask") (ask_request (trim v)))
  /\ length (pending (run w (replicate n Invoke))) = (length (pending w) + n)%nat.
Proof.
  revert w. induction n as [|n IH]; intros w Hp Hv Ht.
  - simpl. rewrite app_nil_r. split; [done | lia].
  - destruct (invoke_valid w v Hp Hv Ht) as (Hp1 & Hv1 & Hs1 & Hl1).
    destruct (IH (step w Invoke) Hp1 Hv1 Ht) as [Hs Hl].
    change (run w (replicate (S n) Invoke)) with (run (step w Invoke) (replicate n Invoke)).
    rewrite Hs, Hl, Hs1, Hl1. split; [|lia].
    by rewrite <- app_assoc.
Qed.

Lemma clicks_are_not_merged_witness :
  let w := sample_page (lit " hi ") in
  sent (run w (replicate 3 Invoke))
  = sent w ++ replicate 3 (Fetch (lit "/ask") (ask_request (trim (lit " hi "))))
  /\ length (pending (run w (replicate 3 Invoke))) = (length (pending w) + 3)%nat.
Proof.
  apply (clicks_are_not_merged 3 (sample_page (lit " hi ")) (lit " hi "));
    [reflexivity | reflexivity | discriminate].
Defined.

(** ** The question that is sent *)

Lemma trimStart_split (s : jsstring) :
  exists pre, s = pre ++ trimStart s /\ forallb is_white_space pre = true.
Proof.
  induction s as [|c s (pre & Hs & Hpre)]; [by exists []|].
  simpl. destruct (is_white_space c) eqn:Hc.
  - exists (c :: pre). simpl. rewrite Hc, Hpre. by rewrite <- Hs.
  - by exists [].
Qed.

Lemma trimStart_clean c (q : jsstring) :
  is_white_space c = false -> trimStart (c :: q) = c :: q.
Proof. intros H. simpl. by rewrite H. Qed.

(** What [trim] returns is the reverse of a text that starts with no
    white space, and itself starts with none. *)
Lemma trim_shape (v : jsstring) c q :
  trim v = c :: q ->
  is_white_space c = false
  /\ exists d u, rev (c :: q) = d :: u /\ is_white_space d = false.
Proof.
  unfold trim, trimEnd. intros H.
  destruct (trimStart_split (rev (trimStart v))) as (pre & Hsplit & _).
  destruct (trimStart (rev (trimStart v))) as [|d u] eqn:Hu; [done|].
  split.
  - apply (f_equal (@rev N)) in Hsplit. rewrite rev_involutive, rev_app_distr, H in Hsplit.
    simpl in Hsplit. by apply trimStart_head in Hsplit.
  - exists d, u. split; [by rewrite <- H, rev_involutive|].
    by apply trimStart_head in Hu.
Qed.

Lemma trim_idem (v : jsstring) : trim (trim v) = trim v.
Proof.
  destruct (trim v) as [|c q] eqn:Ht; [done|].
  destruct (trim_shape v c q Ht) as (Hc & d & u & Hrev & Hd).
  unfold trim, trimEnd. rewrite (trimStart_clean c q Hc), Hrev.
  by rewrite (trimStart_clean d u Hd), <- Hrev, rev_involutive.
Qed.

Lemma last_rev_head (s : jsstring) : last s = head (rev s).
Proof.
  induction s as [|c s IH] using rev_ind; [done|].
  by rewrite last_snoc, rev_app_distr.
Qed.

(** X15.  The question in the request is never blank and has no white
    space at either end; trimming it again gives it back. *)
Theorem sent_question_is_trimmed (w : World) (v : jsstring) :
  page_ready w = true ->
  input_value w = Some v ->
  trim v <> [] ->
  exists q,
    sent (step w Invoke) = sent w ++ [Fetch (lit "/ask") (ask_request q)]
    /\ q <> []
    /\ (forall c, head q = Some c -> is_white_space c = false)
    /\ (forall c, last q = Some c -> is_white_space c = false)
    /\ trim q = q.
Proof.
  intros Hp Hv Ht. exists (trim v).
  destruct (invoke_valid w v Hp Hv Ht) as (_ & _ & Hs & _).
  split; [done|]. split; [done|].
  destruct (trim v) as [|c q] eqn:Hq; [done|].
  destruct (trim_shape v c q Hq) as (Hc & d & u & Hrev & Hd).
  split; [by intros ? [= <-]|].
  split; [|by rewrite <- Hq, trim_idem].
  intros z. rewrite last_rev_head, Hrev. by intros [= <-].
Qed.

Lemma sent_question_is_trimmed_witness :
  let w := sample_page (lit "  what is up  ") in
  exists q,
    sent (step w Invoke) = sent w ++ [Fetch (lit "/ask") (ask_request q)]
    /\ q <> []
    /\ (forall c, head q = Some c -> is_white_space c = false)
    /\ (forall c, last q = Some c -> is_white_space c = false)
    /\ trim q = q.
Proof.
  apply (sent_question_is_trimmed (sample_page (lit "  what is up  "))
           (lit "  what is up  "));
    [reflexivity | reflexivity | discriminate].
Defined.

Lemma user_input_sets_value (w : World) v text :
  input_value w = Some v ->
  input_value (step w (UserInput text)) = Some text
  /\ trace (step w (UserInput text)) = trace w.
Proof.
  intros (qe & Hq & Hv)%input_value_elim. split; [|done].
  unfold input_value. simpl. rewrite lookup_alter_eq, Hq. simpl. by rewrite Hv.
Qed.

Lemma invoke_sent (w : World) v :
  page_ready w = true -> input_value w = Some v ->
  sent (step w Invoke)
  = sent w ++ match trim v with
              | [] => []
              | _ :: _ => [Fetch (lit "/ask") (ask_request (trim v))]
              end.
Proof.
  intros Hp Hv. destruct (trim v) as [|c q] eqn:Ht.
  - simpl. rewrite (askQuestion_blank w v Hp Hv Ht). unfold sent. simpl.
    rewrite requests_app. done.
  - rewrite <- Ht. apply invoke_valid; [done..|]. by rewrite Ht.
Qed.

(** X16.  Only the trimmed text counts: with the input replaced by its
    trimmed text, a click sends exactly what it would have sent. *)
Theorem white_space_around_is_ignored (w : World) (v : jsstring) :
  page_ready w = true ->
  input_value w = Some v ->
  sent (step (step w (UserInput (trim v))) Invoke) = sent (step w Invoke).
Proof.
  intros Hp Hv.
  destruct (user_input_sets_value w v (trim v) Hv) as [Hv' Htr].
  rewrite (invoke_sent _ (trim v) (page_ready_user_input w (trim v) Hp) Hv').
  rewrite (invoke_sent w v Hp Hv), trim_idem.
  unfold sent. by rewrite Htr.
Qed.

Lemma white_space_around_is_ignored_witness :
  let w := sample_page (lit "  what is up  ") in
  sent (step (step w (UserInput (trim (lit "  what is up  ")))) Invoke)
  = sent (step w Invoke).
Proof.
  apply (white_space_around_is_ignored (sample_page (lit "  what is up  "))
           (lit "  what is up  "));
    reflexivity.
Defined.

(** ** Quoting loses nothing *)

Lemma hex_value_digit (d : N) : d < 16 -> hex_value (hex_digit d) = d.
Proof.
  intros Hd. unfold hex_value, hex_digit.
  destruct (d <? 10) eqn:E.
  - apply N.ltb_lt in E. rewrite (proj2 (N.ltb_lt _ _)) by lia. lia.
  - apply N.ltb_ge in E. rewrite (proj2 (N.ltb_ge _ _)) by lia. lia.
Qed.

Lemma unquote_unicode_escape (c : N) (t : jsstring) :
  c < 65536 -> unquote_units (unicode_escape c ++ t) = c :: unquote_units t.
Proof.
  intros Hc. unfold unicode_escape.
  cbn [app unquote_units N.eqb Pos.eqb].
  rewrite !hex_value_digit by (apply N.mod_lt; lia).
  f_equal. zify. Z.to_euclidean_division_equations. lia.
Qed.

(** One of the seven short escapes: the test on [c] decides the case. *)
Ltac short_escape E :=
  match goal with
  | |- context [if ?x =? ?k then _ else _] =>
      destruct (x =? k) eqn:E; [apply N.eqb_eq in E; subst; reflexivity|]
  end.

Lemma unquote_quote_unit (c : N) (t : jsstring) :
  unquote_units (quote_unit c ++ t) = c :: unquote_units t.
Proof.
  unfold quote_unit.
  short_escape Eb. short_escape Et. short_escape En. short_escape Ef.
  short_escape Er. short_escape Equote. short_escape Eslash.
  destruct ((c <? 32) || is_leading_surrogate c || is_trailing_surrogate c) eqn:E.
  - apply unquote_unicode_escape.
    unfold is_leading_surrogate, is_trailing_surrogate in E.
    apply orb_true_iff in E as [[E|E]%orb_true_iff|E].
    + apply N.ltb_lt in E. lia.
    + apply andb_true_iff in E as [_ E]. apply N.leb_le in E. lia.
    + apply andb_true_iff in E as [_ E]. apply N.leb_le in E. lia.
  - cbn [app unquote_units]. by rewrite Eslash.
Qed.

Lemma surrogate_is_no_backslash (c : N) :
  is_leading_surrogate c || is_trailing_surrogate c = true -> (c =? 92) = false.
Proof.
  unfold is_leading_surrogate, is_trailing_surrogate.
  intros [E|E]%orb_true_iff; apply andb_true_iff in E as [E _];
    apply N.leb_le in E; apply N.eqb_neq; lia.
Qed.

Lemma quote_units_two (c d : N) (s : jsstring) :
  quote_units (c :: d :: s)
  = if is_leading_surrogate c && is_trailing_surrogate d
    then c :: d :: quote_units s
    else quote_unit c ++ quote_units (d :: s).
Proof. reflexivity. Qed.

Lemma unquote_quote_units_upto (n : nat) (s : jsstring) :
  (length s <= n)%nat -> unquote_units (quote_units s) = s.
Proof.
  revert s. induction n as [|n IH]; intros s Hlen.
  - destruct s; [done | simpl in Hlen; lia].
  - destruct s as [|c [|d s]]; [done| |].
    + simpl. rewrite <- (app_nil_r (quote_unit c)). by rewrite unquote_quote_unit.
    + simpl in Hlen. rewrite quote_units_two.
      destruct (is_leading_surrogate c && is_trailing_surrogate d) eqn:Epair.
      * apply andb_true_iff in Epair as [Ec Ed].
        cbn [unquote_units].
        rewrite (surrogate_is_no_backslash c) by by rewrite Ec.
        rewrite (surrogate_is_no_backslash d) by by rewrite Ed, orb_true_r.
        rewrite IH by lia. done.
      * rewrite unquote_quote_unit. f_equal. apply IH. simpl. lia.
Qed.

Lemma unquote_quote_units (s : jsstring) : unquote_units (quote_units s) = s.
Proof. by apply (unquote_quote_units_upto (length s)). Qed.

Lemma QuoteJSONString_inj (s s' : jsstring) :
  QuoteJSONString s = QuoteJSONString s' -> s = s'.
Proof.
  unfold QuoteJSONString. intros H.
  apply app_inv_head, app_inv_tail in H.
  by rewrite <- (unquote_quote_units s), H, unquote_quote_units.
Qed.

Lemma ask_request_body (q : jsstring) :
  body (ask_request q)
  = lit "{" ++ (QuoteJSONString (lit "question") ++ lit ":" ++ QuoteJSONString q)
    ++ lit "}".
Proof. reflexivity. Qed.

(** X17.  The body tells the question: two different questions never
    give the same request body. *)
Theorem different_questions_different_bodies (q q' : jsstring) :
  q <> q' -> body (ask_request q) <> body (ask_request q').
Proof.
  intros Hne H. apply Hne. rewrite !ask_request_body in H.
  apply app_inv_head, app_inv_tail, app_inv_head, app_inv_head in H.
  by apply QuoteJSONString_inj.
Qed.

Lemma different_questions_different_bodies_witness :
  body (ask_request [97; 10; 98]) <> body (ask_request (lit "a\nb")).
Proof.
  apply (different_questions_different_bodies [97; 10; 98] (lit "a\nb")).
  discriminate.
Defined.

(** ** An answer that comes late *)

Lemma in_flight_after_other (w : World) p ev :
  consistent w = true -> in_flight w p = true -> is_settle ev = false ->
  in_flight (step w ev) p = true.
Proof.
  intros Hc Hin Hev. destruct ev as [|q o|text]; [|discriminate|done].
  apply andb_true_iff in Hc as [Hp _].
  destruct (input_value w) as [v|] eqn:Hv;
    [|by unfold page_ready in Hp; rewrite Hv in Hp].
  simpl. destruct (trim v) as [|c q] eqn:Ht.
  - by rewrite (askQuestion_blank w v Hp Hv Ht).
  - rewrite (askQuestion_issue w v Hp Hv) by by rewrite Ht.
    unfold in_flight in *. cbn [snd issue pending]. simpl pending.
    apply bool_decide_eq_true. apply bool_decide_eq_true in Hin.
    rewrite List.map_app. apply elem_of_app. by left.
Qed.

Lemma in_flight_while_unsettled (evs : list event) (w : World) p :
  consistent w = true -> in_flight w p = true ->
  forallb (fun ev => negb (is_settle ev)) evs = true ->
  consistent (run w evs) = true /\ in_flight (run w evs) p = true.
Proof.
  revert w. induction evs as [|ev evs IH]; intros w Hc Hin Hevs; [done|].
  simpl in Hevs. apply andb_true_iff in Hevs as [Hev Hevs].
  apply negb_true_iff in Hev.
  apply (IH (step w ev)); [by apply consistent_step | by apply in_flight_after_other | done].
Qed.

(** X18.  An answer that comes late overwrites whatever the page shows
    by then: after any clicks and edits made while the request was in
    flight, its settlement leaves the text it would have left at once, and
    hides the loading indicator even if requests sent since are still in
    flight. *)
Theorem late_answer_overwrites (w : World) (p : nat) (o : outcome) (evs : list event) :
  consistent w = true ->
  in_flight w p = true ->
  forallb (fun ev => negb (is_settle ev)) evs = true ->
  output_text (step (run w evs) (Settle p o)) = output_text (step w (Settle p o))
  /\ loader_hidden (step (run w evs) (Settle p o)) = true.
Proof.
  intros Hc Hin Hevs.
  destruct (in_flight_while_unsettled evs w p Hc Hin Hevs) as [Hc' Hin'].
  split.
  - by rewrite (settle_output _ p o Hc' Hin'), (settle_output w p o Hc Hin).
  - destruct (step_settle _ p o Hc' Hin') as (rest & _ & _ & ->).
    apply loader_hidden_settled.
    apply andb_true_iff in Hc' as [Hr _].
    by apply page_ready_elements in Hr as [_ ?].
Qed.

Lemma late_answer_overwrites_witness :
  let w := step (sample_page (lit "first")) Invoke in
  let o := Fulfilled (mkResponse 200 (ParsesAs (JObject [(lit "response", JString (lit "1"))]))) in
  let later := [UserInput (lit "second"); Invoke] in
  in_flight (step (run w later) (Settle 0%nat o)) 1%nat = true
  /\ output_text (step (run w later) (Settle 0%nat o)) = output_text (step w (Settle 0%nat o))
  /\ loader_hidden (step (run w later) (Settle 0%nat o)) = true.
Proof.
  split; [reflexivity|].
  apply (late_answer_overwrites (step (sample_page (lit "first")) Invoke) 0%nat
           (Fulfilled (mkResponse 200 (ParsesAs (JObject [(lit "response", JString (lit "1"))]))))
           [UserInput (lit "second"); Invoke]);
    reflexivity.
Defined.
